(** * netem_cycle: the NetEm scheduler of [src/netem_cycle.py]

    A shallow embedding of the script that keeps a NetEm impairment on
    interface ens8 except during 03:00-04:00 UTC, and the properties of its
    policy function, its probe-then-act reconciliation and its sleep
    arithmetic.

    Conventions of the embedding.
    - A [datetime] is the aware UTC value of [datetime.now(timezone.utc)]:
      the proleptic Gregorian ordinal of its date ([date.toordinal()],
      from 1 to [MAXORDINAL] = 9999-12-31) and its time-of-day fields.
      Python's own arithmetic goes through the ordinal in the same way.
    - A [timedelta] is its exact count of microseconds.
    - A float is the rational number it stands for; [Double.round] is the
      rounding of IEEE binary64, to nearest with ties to even, so
      [total_seconds()] and the float sum [delta + 1] round as Python's
      do. The quotients and sums of the script lie far below 2^1024, and
      overflow to infinity is not modelled.
    - The output of a command is a byte string; [decode] is the codec of
      the locale that [text=True] applies, and fails where Python raises
      [UnicodeDecodeError]. A text is a string too: a character above
      255 cannot be part of the word "netem", and which character it is
      does not matter to the script.
    - The external [tc] tool is an interface ([Shell]); a run of the script
      is a function of the world behind that interface and records the
      commands, the printed lines and the sleeps in a trace.
    - The text that Python interpolates into printed lines (timestamps,
      the exception text, the number of seconds) is left out of the lines.
    - The loop runs for a given list of clock readings, one per iteration.
      The SIGINT handler, which ends the process, is outside the
      embedding. *)

From Stdlib Require Import ZArith QArith Qminmax Bool List String Lia Lqa.
Import ListNotations.
Local Open Scope Z_scope.

(** ** Floats *)

(** IEEE binary64 numbers as the rationals they stand for. *)
Module Double.

(** The bits of the significand, and the exponent of the smallest
    subnormal number, 2^-1074. *)
Definition PREC : Z := 53.
Definition EMIN : Z := -1074.

(** The integer nearest to [a / b] for [b > 0], ties to even. *)
Definition round_half_even (a b : Z) : Z :=
  let q := a / b in
  let r := a mod b in
  match 2 * r ?= b with
  | Lt => q
  | Eq => if Z.even q then q else q + 1
  | Gt => q + 1
  end.

(** The fraction [n / d] divided by [2^c], as numerator and denominator. *)
Definition scaled (n d c : Z) : Z * Z :=
  if 0 <=? c then (n, d * 2 ^ c) else (n * 2 ^ (- c), d).

(** [2^c <= n / d] *)
Definition pow2_le (c n d : Z) : bool :=
  let (a, b) := scaled n d c in b <=? a.

(** The exponent of [n / d] for [n, d > 0]: the [e] with
    [2^e <= n / d < 2^(e+1)]. *)
Definition ilog2 (n d : Z) : Z :=
  let k := Z.log2 n - Z.log2 d in
  if pow2_le k n d then k else k - 1.

(** The number [m * 2^c]. *)
Definition ldexp (m c : Z) : Q :=
  if 0 <=? c then inject_Z (m * 2 ^ c)
  else Qmake m (Z.to_pos (2 ^ (- c))).

(** The float nearest to [n / d] for [n, d > 0]: a significand of [PREC]
    bits at the exponent of [n / d], or a multiple of [2^EMIN] in the
    subnormal range. *)
Definition round_pos (n d : Z) : Q :=
  let c := Z.max (ilog2 n d - (PREC - 1)) EMIN in
  let (a, b) := scaled n d c in
  ldexp (round_half_even a b) c.

(** The float nearest to [x]. *)
Definition round (x : Q) : Q :=
  match Qnum x with
  | 0 => 0%Q
  | Zpos _ => round_pos (Qnum x) (Zpos (Qden x))
  | Zneg _ => (- round_pos (- Qnum x) (Zpos (Qden x)))%Q
  end.

(** The float sum [x + y] of two floats: the exact sum, rounded. *)
Definition add (x y : Q) : Q := round (x + y).

(** The unit roundoff, 2^-53. *)
Definition U : Q := 1 # 9007199254740992.

End Double.

(** ** Dates and times *)

Module Datetime.

Record datetime : Type := mkdatetime {
  toordinal   : Z;
  hour        : Z;
  minute      : Z;
  second      : Z;
  microsecond : Z
}.

(** [date.max.toordinal()], the ordinal of 9999-12-31. *)
Definition MAXORDINAL : Z := 3652059.

(** The invariant of Python's datetime objects. *)
Definition wf_datetime (d : datetime) : Prop :=
  1 <= toordinal d <= MAXORDINAL /\
  0 <= hour d < 24 /\
  0 <= minute d < 60 /\
  0 <= second d < 60 /\
  0 <= microsecond d < 1000000.

(** The part of the invariant on the time of day. *)
Definition wf_time (d : datetime) : Prop :=
  0 <= hour d < 24 /\ 0 <= minute d < 60 /\
  0 <= second d < 60 /\ 0 <= microsecond d < 1000000.

Definition wf_datetimeb (d : datetime) : bool :=
  (1 <=? toordinal d) && (toordinal d <=? MAXORDINAL) &&
  (0 <=? hour d) && (hour d <? 24) &&
  (0 <=? minute d) && (minute d <? 60) &&
  (0 <=? second d) && (second d <? 60) &&
  (0 <=? microsecond d) && (microsecond d <? 1000000).

(** [d.replace(hour=h, minute=m, second=s, microsecond=us)]: the date is
    kept. *)
Definition replace_time (d : datetime) (h m s us : Z) : datetime :=
  {| toordinal := toordinal d;
     hour := h; minute := m; second := s; microsecond := us |}.

(** The order of datetimes with the same tzinfo: the lexicographic order
    of their fields. *)
Definition datetime_compare (a b : datetime) : comparison :=
  match toordinal a ?= toordinal b with
  | Eq =>
    match hour a ?= hour b with
    | Eq =>
      match minute a ?= minute b with
      | Eq =>
        match second a ?= second b with
        | Eq => microsecond a ?= microsecond b
        | c => c
        end
      | c => c
      end
    | c => c
    end
  | c => c
  end.

(** [a <= b] *)
Definition datetime_le (a b : datetime) : bool :=
  match datetime_compare a b with
  | Gt => false
  | _ => true
  end.

Definition timedelta : Type := Z.

Definition US_PER_SECOND : Z := 1000000.
Definition US_PER_DAY : Z := 86400 * US_PER_SECOND.

(** [timedelta(days=n)] *)
Definition timedelta_days (n : Z) : timedelta := n * US_PER_DAY.

(** Seconds since midnight, as [datetime.__sub__] and [__add__] compute
    them. *)
Definition seconds_of_day (d : datetime) : Z :=
  second d + minute d * 60 + hour d * 3600.

(** [a - b]: [timedelta(days1 - days2, secs1 - secs2, us1 - us2)]. *)
Definition datetime_sub (a b : datetime) : timedelta :=
  (toordinal a - toordinal b) * US_PER_DAY
  + (seconds_of_day a - seconds_of_day b) * US_PER_SECOND
  + (microsecond a - microsecond b).

(** [d + td]: the sum is normalised into days, seconds and microseconds;
    [None] is the [OverflowError] Python raises when the day leaves
    [1 .. MAXORDINAL]. *)
Definition datetime_add (d : datetime) (td : timedelta) : option datetime :=
  let total :=
    toordinal d * US_PER_DAY + seconds_of_day d * US_PER_SECOND
    + microsecond d + td in
  let days := total / US_PER_DAY in
  let rest := total mod US_PER_DAY in
  let secs := rest / US_PER_SECOND in
  let us := rest mod US_PER_SECOND in
  let h := secs / 3600 in
  let rem := secs mod 3600 in
  if (0 <? days) && (days <=? MAXORDINAL) then
    Some {| toordinal := days; hour := h; minute := rem / 60;
            second := rem mod 60; microsecond := us |}
  else None.

(** [td.total_seconds()]: the microseconds divided by 10^6, the true
    division of two integers, which gives the nearest float. *)
Definition total_seconds (td : timedelta) : Q :=
  Double.round (Qmake td 1000000).

(** The position of a datetime on the time line, in microseconds since
    the midnight that starts ordinal 0. *)
Definition timestamp_us (d : datetime) : Z :=
  toordinal d * US_PER_DAY + seconds_of_day d * US_PER_SECOND
  + microsecond d.

(** The same position in seconds. *)
Definition timestamp (d : datetime) : Q := Qmake (timestamp_us d) 1000000.

End Datetime.
Export Datetime.

(** Python's [min(a, b)] on two numbers: [b] when [b < a], else [a]. *)
Definition py_min (a b : Q) : Q :=
  match Qcompare b a with
  | Lt => b
  | _ => a
  end.

(** ** The configuration constants of the script *)

Local Open Scope string_scope.

Definition IFACE : string := "ens8".
Definition IMPAIR_CMD : list string :=
  ["tc"; "qdisc"; "add"; "dev"; IFACE; "root"; "netem"; "delay"; "520ms";
   "loss"; "1%"].
Definition HEAL_CMD : list string :=
  ["tc"; "qdisc"; "del"; "dev"; IFACE; "root"].
(** The argument list of the query in [has_netem]. *)
Definition SHOW_CMD : list string :=
  ["tc"; "qdisc"; "show"; "dev"; IFACE].

Local Close Scope string_scope.

Definition HEALTHY_START_HOUR : Z := 3.
Definition HEALTHY_END_HOUR : Z := 4.
Definition CHECK_INTERVAL : Z := 30.

(** ** The policy function *)

Definition in_healthy_window (now_utc : datetime) : bool :=
  let h := hour now_utc in
  (HEALTHY_START_HOUR <=? h) && (h <? HEALTHY_END_HOUR).

(** ** Processes, exceptions and the trace of a run *)

(** What starting a command gives: the process ran and left an exit status
    and its standard output, or it could not be started at all (Python's
    [Popen] raises an [OSError] such as [FileNotFoundError]). *)
Inductive completed : Type :=
| Exited (returncode : Z) (stdout : string)
| NotStarted.

(** The command-execution boundary: how the world answers a command, and
    the world it leaves. *)
Class Shell (World : Type) : Type :=
  spawn : list string -> World -> completed * World.

(** The codec of the locale, which [text=True] applies to the bytes of an
    output, the translation of line ends included; [None] where Python
    raises [UnicodeDecodeError]. *)
Class Locale : Type :=
  decode : string -> option string.

(** The exceptions that the script can meet. *)
Inductive exn : Type :=
| CalledProcessError (returncode : Z)
| OSError
| UnicodeDecodeError
| OverflowError
| ValueError.

Inductive outcome (A : Type) : Type :=
| Returned (a : A)
| Raised (e : exn).
Arguments Returned {A} a.
Arguments Raised {A} e.

(** What a run does that can be seen from outside. *)
Inductive event : Type :=
| Spawn (cmd : list string)
| Stdout (line : string)
| Stderr (line : string)
| Sleep (seconds : Q).

Local Open Scope string_scope.
Definition MSG_BANNER : string :=
  "=== NetEm scheduler started (Ctrl-C to stop) ===".
Definition MSG_APPLYING : string := "[+] Applying impairment".
Definition MSG_REMOVING : string := "[+] Removing impairment".
Definition MSG_APPLY_FAILED : string := "    failed to apply impairment".
Definition MSG_REMOVE_FAILED : string := "    failed to remove impairment".
Definition MSG_HEALTHY : string := "    healthy window active; sleeping".
Definition NETEM : string := "netem".
Local Close Scope string_scope.

(** [needle in hay] on strings. *)
Fixpoint contains (needle hay : string) : bool :=
  String.prefix needle hay ||
  match hay with
  | EmptyString => false
  | String _ rest => contains needle rest
  end.

Definition cmd_eqb (a b : list string) : bool :=
  if list_eq_dec string_dec a b then true else false.

(** How many times a command was started in a trace. *)
Definition count_spawn (cmd : list string) (tr : list event) : nat :=
  List.length (filter (fun e => match e with
                           | Spawn c => cmd_eqb c cmd
                           | _ => false
                           end) tr).

(** The lines written to stderr in a trace. *)
Definition stderr_lines (tr : list event) : list string :=
  flat_map (fun e => match e with
                     | Stderr l => [l]
                     | _ => []
                     end) tr.

(** The arguments of [time.sleep] in a trace. *)
Definition sleeps (tr : list event) : list Q :=
  flat_map (fun e => match e with
                     | Sleep q => [q]
                     | _ => []
                     end) tr.

Section Program.

Context {World : Type} `{Shell World} `{Locale}.

(** The state of a run: the world behind [tc] and the trace so far, the
    newest event last. *)
Record state : Type := mkstate {
  world : World;
  trace : list event
}.

(** A computation that may change the state and may raise. *)
Definition M (A : Type) : Type := state -> outcome A * state.

Definition ret {A} (a : A) : M A := fun s => (Returned a, s).

Definition bind {A B} (m : M A) (k : A -> M B) : M B :=
  fun s =>
    match m s with
    | (Returned a, s') => k a s'
    | (Raised e, s') => (Raised e, s')
    end.

Definition raise {A} (e : exn) : M A := fun s => (Raised e, s).

(** [try: body  except subprocess.CalledProcessError as e: handler];
    every other exception goes through. *)
Definition try_except_CalledProcessError {A}
    (body : M A) (handler : Z -> M A) : M A :=
  fun s =>
    match body s with
    | (Raised (CalledProcessError rc), s') => handler rc s'
    | r => r
    end.

(** The state after an event that leaves the world as it is. *)
Definition record (e : event) (s : state) : state :=
  {| world := world s; trace := trace s ++ [e] |}.

(** The state after command [cmd] has left the world [w]. *)
Definition spawned (cmd : list string) (w : World) (s : state) : state :=
  {| world := w; trace := trace s ++ [Spawn cmd] |}.

Definition emit (e : event) : M unit :=
  fun s => (Returned tt, record e s).

(** Starting a command: it is recorded, and the world answers. *)
Definition popen (cmd : list string) : M completed :=
  fun s =>
    let (r, w) := spawn cmd (world s) in
    (Returned r, spawned cmd w s).

(** The command runs in world [w] and exits with status 0. *)
Definition exits_ok (cmd : list string) (w : World) : Prop :=
  exists out w', spawn cmd w = (Exited 0 out, w').

(** In world [w] the query succeeds and its text shows netem. *)
Definition query_reports_netem (w : World) : Prop :=
  exists out text w',
    spawn SHOW_CMD w = (Exited 0 out, w') /\
    decode out = Some text /\ contains NETEM text = true.

(** In world [w] a successful query with a text shows no netem. *)
Definition query_reports_clean (w : World) : Prop :=
  forall out text w',
    spawn SHOW_CMD w = (Exited 0 out, w') ->
    decode out = Some text -> contains NETEM text = false.

(** The two exceptions that come from the world: [OSError] when some
    command could not be started, [UnicodeDecodeError] when the query
    printed what is no text of the locale. *)
Definition raised_by_world (e : exn) : Prop :=
  (e = OSError /\
   exists cmd w w', spawn cmd w = (NotStarted, w')) \/
  (e = UnicodeDecodeError /\
   exists w rc out w',
     spawn SHOW_CMD w = (Exited rc out, w') /\ decode out = None).

(** In every world the output of the query is a text of the locale. *)
Definition query_decodes : Prop :=
  forall w rc out w',
    spawn SHOW_CMD w = (Exited rc out, w') ->
    exists text, decode out = Some text.

(** In every world each command runs to an exit status, zero or not. *)
Definition always_exits : Prop :=
  forall cmd w, exists rc out w', spawn cmd w = (Exited rc out, w').

Definition lift_overflow {A} (o : option A) : M A :=
  match o with
  | Some a => ret a
  | None => raise OverflowError
  end.

End Program.

Arguments state World : clear implicits.
Arguments M World A : clear implicits.
Arguments always_exits World {_}.
Arguments query_decodes World {_ _}.
Arguments raised_by_world World {_ _} e.

Declare Scope py_scope.
Delimit Scope py_scope with py.
Notation "x <- m ;; k" := (bind m (fun x => k))
  (at level 61, m at next level, right associativity) : py_scope.
Notation "m ;; k" := (bind m (fun _ => k))
  (at level 61, right associativity) : py_scope.
Local Open Scope py_scope.

(** ** The functions of the script *)

Section Script.

Context {World : Type} `{Shell World} `{Locale}.

(** [subprocess.run(cmd, check=True, stdout=DEVNULL, stderr=DEVNULL)] *)
Definition run (cmd : list string) : M World unit :=
  r <- popen cmd ;;
  match r with
  | Exited rc _ => if rc =? 0 then ret tt else raise (CalledProcessError rc)
  | NotStarted => raise OSError
  end.

(** [subprocess.check_output(cmd, text=True)]: the output is decoded when
    it is read, before the exit status is looked at. *)
Definition check_output (cmd : list string) : M World string :=
  r <- popen cmd ;;
  match r with
  | Exited rc out =>
      match decode out with
      | None => raise UnicodeDecodeError
      | Some text =>
          if rc =? 0 then ret text else raise (CalledProcessError rc)
      end
  | NotStarted => raise OSError
  end.

Definition has_netem : M World bool :=
  try_except_CalledProcessError
    (out <- check_output SHOW_CMD ;;
     ret (contains NETEM out))
    (fun _ => ret false).

Definition impair : M World unit :=
  b <- has_netem ;;
  if b then ret tt
  else
    emit (Stdout MSG_APPLYING) ;;
    try_except_CalledProcessError
      (run IMPAIR_CMD)
      (fun _ => emit (Stderr MSG_APPLY_FAILED)).

Definition heal : M World unit :=
  b <- has_netem ;;
  if negb b then ret tt
  else
    emit (Stdout MSG_REMOVING) ;;
    try_except_CalledProcessError
      (run HEAL_CMD)
      (fun rc =>
         if negb (rc =? 2) then emit (Stderr MSG_REMOVE_FAILED)
         else ret tt).

(** [time.sleep(secs)]: a negative argument raises [ValueError]. *)
Definition time_sleep (secs : Q) : M World unit :=
  match Qcompare secs 0 with
  | Lt => raise ValueError
  | _ => emit (Sleep secs)
  end.

(** Line 66: the end of the window on the day of [now]. *)
Definition next_transition (now : datetime) : datetime :=
  replace_time now HEALTHY_END_HOUR 0 0 0.

(** Lines 75 to 77: the next start of the window. *)
Definition next_start (now : datetime) : option datetime :=
  let next_start := replace_time now HEALTHY_START_HOUR 0 0 0 in
  if datetime_le next_start now
  then datetime_add next_start (timedelta_days 1)
  else Some next_start.

(** Lines 65 to 72: the branch of the loop body inside the window. *)
Definition healthy_branch (now : datetime) : M World unit :=
  heal ;;
  let next_transition := next_transition now in
  if datetime_le next_transition now then
    time_sleep (inject_Z CHECK_INTERVAL)
  else
    let delta := total_seconds (datetime_sub next_transition now) in
    emit (Stdout MSG_HEALTHY) ;;
    time_sleep (Double.add delta 1).

(** Lines 74 to 80: the branch of the loop body outside the window. *)
Definition impaired_branch (now : datetime) : M World unit :=
  impair ;;
  next_start <- lift_overflow (next_start now) ;;
  let delta := total_seconds (datetime_sub next_start now) in
  let sleep_duration := py_min delta (inject_Z CHECK_INTERVAL) in
  time_sleep sleep_duration.

(** The body of the [while True] loop, for the clock reading [now]. *)
Definition main_iteration (now : datetime) : M World unit :=
  if in_healthy_window now then healthy_branch now
  else impaired_branch now.

(** The loop, for the successive readings of the clock: it goes on as
    long as no iteration raises. *)
Fixpoint main_loop (clock : list datetime) : M World unit :=
  match clock with
  | [] => ret tt
  | now :: later => main_iteration now ;; main_loop later
  end.

Definition main (clock : list datetime) : M World unit :=
  emit (Stdout MSG_BANNER) ;;
  main_loop clock.

End Script.

(** ** Two worlds behind the command boundary *)

(** A kernel with one root qdisc slot on the interface, as [tc] sees it:
    is a netem qdisc installed, and may the caller change it. [tc] exits
    with status 2 when the kernel refuses a request. *)
Module Tc.

Record kernel : Type := mkkernel {
  netem_installed : bool;
  privileged : bool
}.

Local Open Scope string_scope.
Definition SHOW_NETEM : string :=
  "qdisc netem 8001: root refcnt 2 limit 1000 delay 520ms loss 1%".
Definition SHOW_DEFAULT : string :=
  "qdisc pfifo_fast 0: root refcnt 2 bands 3 priomap 1 2 2 2 1 2 0 0 1".
Local Close Scope string_scope.

Definition tc (cmd : list string) (k : kernel) : completed * kernel :=
  if cmd_eqb cmd SHOW_CMD then
    (Exited 0 (if netem_installed k then SHOW_NETEM else SHOW_DEFAULT), k)
  else if cmd_eqb cmd IMPAIR_CMD then
    if privileged k && negb (netem_installed k)
    then (Exited 0 EmptyString,
          {| netem_installed := true; privileged := privileged k |})
    else (Exited 2 EmptyString, k)
  else if cmd_eqb cmd HEAL_CMD then
    if privileged k && netem_installed k
    then (Exited 0 EmptyString,
          {| netem_installed := false; privileged := privileged k |})
    else (Exited 2 EmptyString, k)
  else (Exited 1 EmptyString, k).

End Tc.

#[export] Instance Shell_kernel : Shell Tc.kernel := Tc.tc.

(** A scripted world: the answers to the successive commands, whatever
    the commands are; when the script is over no command starts. *)
Module Script.

Record script : Type := mkscript { answers : list completed }.

Definition answer (cmd : list string) (s : script) : completed * script :=
  match answers s with
  | [] => (NotStarted, s)
  | r :: rest => (r, {| answers := rest |})
  end.

End Script.

#[export] Instance Shell_script : Shell Script.script := Script.answer.

(** The ASCII codec: a byte above 127 is not a character, every other
    byte is the character of its code. *)
Fixpoint all_ascii (s : string) : bool :=
  match s with
  | EmptyString => true
  | String (Ascii.Ascii _ _ _ _ _ _ _ b7) rest => negb b7 && all_ascii rest
  end.

Definition ascii_decode (s : string) : option string :=
  if all_ascii s then Some s else None.

#[export] Instance Locale_ascii : Locale := ascii_decode.

(** The state in which a run starts. *)
Definition initial {World : Type} (w : World) : state World :=
  {| world := w; trace := [] |}.

(** ** The scheduling rule in the words of the specification *)

(** The start-of-window instant on the day of [now], and on the next day. *)
Definition start_today (now : datetime) : datetime :=
  {| toordinal := toordinal now; hour := HEALTHY_START_HOUR;
     minute := 0; second := 0; microsecond := 0 |}.

Definition start_tomorrow (now : datetime) : datetime :=
  {| toordinal := toordinal now + 1; hour := HEALTHY_START_HOUR;
     minute := 0; second := 0; microsecond := 0 |}.

(** "The next boundary is the start-of-window instant, today if still in
    the future else tomorrow." *)
Definition spec_next_boundary (now : datetime) : datetime :=
  if timestamp_us now <? timestamp_us (start_today now)
  then start_today now
  else start_tomorrow now.

(** The next boundary of [now] is a date that exists: [now] is not past
    the start of the window on the last day, 9999-12-31. *)
Definition boundary_exists (now : datetime) : Prop :=
  toordinal (spec_next_boundary now) <= MAXORDINAL.

(** A clock reading for which the sleep of the iteration can be computed:
    a well-formed datetime, inside the window or with a next boundary
    that exists. *)
Definition schedulable (now : datetime) : Prop :=
  wf_datetime now /\
  (in_healthy_window now = true \/ boundary_exists now).

(** The time from [now] until [boundary], in seconds. *)
Definition time_until (now boundary : datetime) : Q :=
  (timestamp boundary - timestamp now)%Q.

(** The same time as [total_seconds()] gives it: the float nearest to
    the microseconds between the two instants, divided by 10^6. *)
Definition float_time_until (now boundary : datetime) : Q :=
  Double.round
    (Qmake (timestamp_us boundary - timestamp_us now) 1000000).

(** One nanosecond, in seconds. *)
Definition NANOSECOND : Q := 1 # 1000000000.

(** Some clock readings used below: 2025-06-15 is ordinal 739417. *)
Definition at_time (day h m s us : Z) : datetime :=
  {| toordinal := day; hour := h; minute := m; second := s;
     microsecond := us |}.

(** ** Concrete runs *)

(** A kernel without netem, seen by a caller that may not change it. *)
Definition unprivileged_clean : Tc.kernel := Tc.mkkernel false false.
(** A kernel with netem, seen by a caller that may not change it. *)
Definition unprivileged_netem : Tc.kernel := Tc.mkkernel true false.
(** A host on which [tc] cannot be started. *)
Definition tc_missing : Script.script := Script.mkscript [].
(** The query fails with status 1, then the next command succeeds. *)
Definition query_fails : Script.script :=
  Script.mkscript [Exited 1 EmptyString; Exited 0 EmptyString].
(** The byte 255, then the word netem: an output that is no text. *)
Definition GARBLED : string :=
  String (Ascii.Ascii true true true true true true true true) NETEM.
(** The query exits with the given status and prints an output that is
    no text. *)
Definition query_garbled (rc : Z) : Script.script :=
  Script.mkscript [Exited rc GARBLED].
(** The query shows netem, then the removal fails with the given status. *)
Definition removal_fails (rc : Z) : Script.script :=
  Script.mkscript [Exited 0 Tc.SHOW_NETEM; Exited rc EmptyString].

(** 9999-12-31 at 05:00:00 and at 23:59:59.999999, and some times on
    2025-06-15. *)
Definition last_day_0500 : datetime := at_time MAXORDINAL 5 0 0 0.
Definition t_0210 : datetime := at_time 739417 2 10 0 0.
Definition t_0310 : datetime := at_time 739417 3 10 0 0.
Definition t_2350 : datetime := at_time 739417 23 50 0 0.
Definition t_025959_9 : datetime := at_time 739417 2 59 59 900000.
Definition t_035959_999999 : datetime := at_time 739417 3 59 59 999999.

(** ** Words for the properties of the trace *)

(** [needle] occurs in [hay]: some text, then [needle], then some text. *)
Definition occurs_in (needle hay : string) : Prop :=
  exists before after, hay = (before ++ needle ++ after)%string.

(** The commands started in a trace, in the order of their start. *)
Definition spawns (tr : list event) : list (list string) :=
  flat_map (fun e => match e with
                     | Spawn c => [c]
                     | _ => []
                     end) tr.

(** The three command lines of the script. *)
Definition script_commands : list (list string) :=
  [SHOW_CMD; IMPAIR_CMD; HEAL_CMD].

(** The longest sleep of the healthy branch: an hour and a second. *)
Definition HEALTHY_SLEEP_MAX : Z := 3601.

(** * Properties *)

(** ** Rounding to a float *)

Module DoubleFacts.

Import Double.

(** Rounding to the nearest integer is off by at most a half. *)
Lemma rhe_error a b :
  0 < b ->
  - b <= 2 * (round_half_even a b * b - a) <= b.
Proof.
  intros Hb. unfold round_half_even.
  pose proof (Z.div_mod a b ltac:(lia)) as E.
  pose proof (Z.mod_pos_bound a b Hb) as Hr.
  set (q := a / b) in *. set (r := a mod b) in *.
  destruct (Z.compare_spec (2 * r) b) as [C|C|C];
    [destruct (Z.even q)| |]; nia.
Qed.

Lemma ilog2_lower n d :
  0 < n -> 0 < d -> pow2_le (ilog2 n d) n d = true.
Proof.
  intros Hn Hd. unfold ilog2.
  destruct (pow2_le (Z.log2 n - Z.log2 d) n d) eqn:E; [exact E|].
  pose proof (Z.log2_spec n Hn) as [Ln _].
  pose proof (Z.log2_spec d Hd) as [_ Ld].
  pose proof (Z.log2_nonneg n). pose proof (Z.log2_nonneg d).
  set (ln := Z.log2 n) in *. set (ld := Z.log2 d) in *.
  unfold pow2_le, scaled.
  destruct (Z.leb_spec 0 (ln - ld - 1)) as [S|S]; apply Z.leb_le.
  - assert (Ep : 2 ^ ln = 2 ^ (Z.succ ld) * 2 ^ (ln - ld - 1)).
    { rewrite <- Z.pow_add_r by lia. f_equal. lia. }
    assert (0 < 2 ^ (ln - ld - 1)) by (apply Z.pow_pos_nonneg; lia).
    nia.
  - assert (Ep : 2 ^ (Z.succ ld) = 2 ^ ln * 2 ^ (- (ln - ld - 1))).
    { rewrite <- Z.pow_add_r by lia. f_equal. lia. }
    assert (0 < 2 ^ (- (ln - ld - 1))) by (apply Z.pow_pos_nonneg; lia).
    nia.
Qed.

Lemma scaled_lower e n d :
  0 < n -> 0 < d ->
  pow2_le e n d = true ->
  2 ^ 52 * snd (scaled n d (e - 52)) <= fst (scaled n d (e - 52)).
Proof.
  intros Hn Hd. unfold pow2_le, scaled.
  destruct (Z.leb_spec 0 e) as [He|He]; intros L; apply Z.leb_le in L;
    destruct (Z.leb_spec 0 (e - 52)) as [Hc|Hc]; simpl fst; simpl snd.
  - assert (Ep : 2 ^ e = 2 ^ 52 * 2 ^ (e - 52)).
    { rewrite <- Z.pow_add_r by lia. f_equal. lia. }
    rewrite Ep in L. lia.
  - assert (Ep : 2 ^ 52 = 2 ^ e * 2 ^ (- (e - 52))).
    { rewrite <- Z.pow_add_r by lia. f_equal. lia. }
    assert (0 < 2 ^ (- (e - 52))) by (apply Z.pow_pos_nonneg; lia).
    rewrite Ep. nia.
  - lia.
  - assert (Ep : 2 ^ (- (e - 52)) = 2 ^ 52 * 2 ^ (- e)).
    { rewrite <- Z.pow_add_r by lia. f_equal. lia. }
    rewrite Ep. nia.
Qed.

Lemma ilog2_normal n d :
  0 < n -> 0 < d -> d <= n * 2 ^ 1021 -> -1022 <= ilog2 n d.
Proof.
  intros Hn Hd L. unfold ilog2.
  pose proof (Z.log2_le_mono _ _ L) as M.
  rewrite Z.log2_mul_pow2 in M by lia.
  destruct (pow2_le _ n d); lia.
Qed.

Lemma round_pos_bounds n (d : positive) :
  0 < n -> Zpos d <= n * 2 ^ 1021 ->
  ((n # d) * (1 - Double.U) <= round_pos n (Zpos d) /\
   round_pos n (Zpos d) <= (n # d) * (1 + Double.U))%Q.
Proof.
  intros Hn Hnorm. unfold round_pos.
  assert (Hd : 0 < Z.pos d) by lia.
  remember (Z.pos d) as dz eqn:Edz.
  pose proof (ilog2_normal n dz Hn Hd Hnorm) as He.
  pose proof (ilog2_lower n dz Hn Hd) as Hl.
  set (e := ilog2 n dz) in *.
  change (PREC - 1) with 52.
  rewrite Z.max_l by (unfold EMIN; lia).
  pose proof (scaled_lower e n dz Hn Hd Hl) as Hs.
  set (c := e - 52) in *.
  change (2 ^ 52) with 4503599627370496 in Hs.
  unfold ldexp, scaled in *.
  destruct (Z.leb_spec 0 c) as [Hc|Hc]; cbn [fst snd] in Hs.
  - assert (HP : 0 < 2 ^ c) by (apply Z.pow_pos_nonneg; lia).
    set (P := 2 ^ c) in *.
    assert (Hb : 0 < dz * P) by (apply Z.mul_pos_pos; assumption).
    pose proof (rhe_error n (dz * P) Hb) as Hm.
    set (m := round_half_even n (dz * P)) in *.
    unfold Double.U, Qle, Qmult, Qminus, Qplus, Qopp, inject_Z.
    cbn [Qnum Qden]. rewrite ?Pos2Z.inj_mul, <- Edz.
    split; nia.
  - assert (HP : 0 < 2 ^ (- c)) by (apply Z.pow_pos_nonneg; lia).
    set (P := 2 ^ (- c)) in *.
    assert (Hb : 0 < dz) by assumption.
    pose proof (rhe_error (n * P) dz Hb) as Hm.
    set (m := round_half_even (n * P) dz) in *.
    unfold Double.U, Qle, Qmult, Qminus, Qplus, Qopp.
    cbn [Qnum Qden]. rewrite ?Pos2Z.inj_mul, <- Edz, Z2Pos.id by exact HP.
    split; nia.
Qed.

(** A float is within the relative error 2^-53 of the number it rounds,
    for every number from a microsecond up. *)
Lemma round_bounds x :
  (1 # 1000000 <= x)%Q ->
  (x * (1 - Double.U) <= Double.round x /\
   Double.round x <= x * (1 + Double.U))%Q.
Proof.
  destruct x as [n d]. unfold Qle. cbn [Qnum Qden]. intros Hx.
  assert (Hbig : 1000000 <= 2 ^ 1021) by (vm_compute; discriminate).
  destruct n as [|p|p]; try lia.
  unfold Double.round. cbn [Qnum Qden].
  apply round_pos_bounds; [lia|].
  assert (0 < Z.pos p) by lia. nia.
Qed.

(** Some floats, as Python's [float] gives them: 0.1, 1e-06, a tie
    between two floats above 2^53 that goes to the even significand, and
    the halves of the smallest subnormal number, which go to zero and to
    that number. *)
Example round_tenth :
  (round (1 # 10) == 3602879701896397 # 36028797018963968)%Q.
Proof. vm_compute. reflexivity. Qed.

Example round_microsecond :
  (round (1 # 1000000)
   == 4722366482869645 # 4722366482869645213696)%Q.
Proof. vm_compute. reflexivity. Qed.

Example round_tie_to_even :
  (round (9007199254740993 # 1) == 9007199254740992 # 1)%Q /\
  (round (9007199254740995 # 1) == 9007199254740996 # 1)%Q.
Proof. split; vm_compute; reflexivity. Qed.

Example round_subnormal :
  (round (Qmake 1 (2 ^ 1075)) == 0)%Q /\
  (round (Qmake 3 (2 ^ 1075)) == Qmake 1 (2 ^ 1073))%Q.
Proof. split; vm_compute; reflexivity. Qed.

End DoubleFacts.

(** ** Date arithmetic *)

Lemma wf_datetime_time d : wf_datetime d -> wf_time d.
Proof. unfold wf_datetime, wf_time. tauto. Qed.

Lemma wf_datetimeb_correct d : wf_datetimeb d = true -> wf_datetime d.
Proof.
  unfold wf_datetimeb, wf_datetime. intros E.
  repeat (apply andb_prop in E; destruct E as [E ?]).
  lia.
Qed.

Lemma wf_time_replace d h :
  0 <= h < 24 -> wf_time (replace_time d h 0 0 0).
Proof. unfold wf_time. simpl. lia. Qed.

Lemma datetime_sub_timestamp a b :
  timestamp_us a - timestamp_us b = datetime_sub a b.
Proof. unfold datetime_sub, timestamp_us. ring. Qed.

(** On well-formed times the order of the fields is the order of the
    time line. *)
Lemma datetime_compare_timestamp a b :
  wf_time a -> wf_time b ->
  datetime_compare a b = (timestamp_us a ?= timestamp_us b).
Proof.
  unfold wf_time, datetime_compare, timestamp_us, seconds_of_day,
    US_PER_DAY, US_PER_SECOND.
  intros Ha Hb. symmetry.
  destruct (Z.compare_spec (toordinal a) (toordinal b)) as [E1|E1|E1];
    [ | apply Z.compare_lt_iff; lia | apply Z.compare_gt_iff; lia ].
  destruct (Z.compare_spec (hour a) (hour b)) as [E2|E2|E2];
    [ | apply Z.compare_lt_iff; lia | apply Z.compare_gt_iff; lia ].
  destruct (Z.compare_spec (minute a) (minute b)) as [E3|E3|E3];
    [ | apply Z.compare_lt_iff; lia | apply Z.compare_gt_iff; lia ].
  destruct (Z.compare_spec (second a) (second b)) as [E4|E4|E4];
    [ | apply Z.compare_lt_iff; lia | apply Z.compare_gt_iff; lia ].
  destruct (Z.compare_spec (microsecond a) (microsecond b)) as [E5|E5|E5];
    [ apply Z.compare_eq_iff | apply Z.compare_lt_iff
    | apply Z.compare_gt_iff ]; lia.
Qed.

Lemma datetime_le_timestamp a b :
  wf_time a -> wf_time b ->
  datetime_le a b = (timestamp_us a <=? timestamp_us b).
Proof.
  intros Ha Hb. unfold datetime_le, Z.leb.
  rewrite (datetime_compare_timestamp a b Ha Hb). reflexivity.
Qed.

(** Adding one day to a well-formed time moves the date and keeps the
    time of day; it overflows exactly on the last day. *)
Lemma datetime_add_one_day d :
  wf_time d ->
  datetime_add d (timedelta_days 1) =
  if (0 <? toordinal d + 1) && (toordinal d + 1 <=? MAXORDINAL)
  then Some {| toordinal := toordinal d + 1; hour := hour d;
               minute := minute d; second := second d;
               microsecond := microsecond d |}
  else None.
Proof.
  unfold wf_time. intros (Hh & Hm & Hs & Hu).
  unfold datetime_add, timedelta_days, seconds_of_day,
    US_PER_DAY, US_PER_SECOND.
  set (secs := second d + minute d * 60 + hour d * 3600).
  set (rest := secs * 1000000 + microsecond d).
  assert (Hsecs : 0 <= secs < 86400) by (unfold secs; lia).
  assert (Hrest : 0 <= rest < 86400 * 1000000) by (unfold rest; lia).
  set (total := toordinal d * (86400 * 1000000) + secs * 1000000
                + microsecond d + 1 * (86400 * 1000000)).
  assert (Ed : total / (86400 * 1000000) = toordinal d + 1).
  { symmetry. apply (Z.div_unique _ _ _ rest);
      [lia | unfold total, rest; ring]. }
  assert (Er : total mod (86400 * 1000000) = rest).
  { symmetry. apply (Z.mod_unique _ _ (toordinal d + 1));
      [lia | unfold total, rest; ring]. }
  rewrite Ed, Er.
  assert (Es : rest / 1000000 = secs).
  { symmetry. apply (Z.div_unique _ _ _ (microsecond d));
      [lia | unfold rest; ring]. }
  assert (Eu : rest mod 1000000 = microsecond d).
  { symmetry. apply (Z.mod_unique _ _ secs); [lia | unfold rest; ring]. }
  rewrite Es, Eu.
  assert (Eh : secs / 3600 = hour d).
  { symmetry. apply (Z.div_unique _ _ _ (second d + minute d * 60));
      [lia | unfold secs; ring]. }
  assert (Em : secs mod 3600 = second d + minute d * 60).
  { symmetry. apply (Z.mod_unique _ _ (hour d)); [lia | unfold secs; ring]. }
  rewrite Eh, Em.
  assert (Emin : (second d + minute d * 60) / 60 = minute d).
  { symmetry. apply (Z.div_unique _ _ _ (second d)); [lia | ring]. }
  assert (Esec : (second d + minute d * 60) mod 60 = second d).
  { symmetry. apply (Z.mod_unique _ _ (minute d)); [lia | ring]. }
  rewrite Emin, Esec. reflexivity.
Qed.

(** The next start of the window, as the script computes it, is the next
    boundary of the specification whenever that day exists. *)
Lemma next_start_spec now :
  wf_datetime now ->
  next_start now =
  if toordinal (spec_next_boundary now) <=? MAXORDINAL
  then Some (spec_next_boundary now) else None.
Proof.
  intros Hwf. pose proof (wf_datetime_time now Hwf) as Ht.
  unfold next_start, spec_next_boundary.
  assert (Hr : wf_time (replace_time now HEALTHY_START_HOUR 0 0 0))
    by (apply wf_time_replace; unfold HEALTHY_START_HOUR; lia).
  rewrite (datetime_le_timestamp _ _ Hr Ht).
  change (replace_time now HEALTHY_START_HOUR 0 0 0)
    with (start_today now) in *.
  destruct (Z.leb_spec (timestamp_us (start_today now)) (timestamp_us now))
    as [L|L].
  - destruct (Z.ltb_spec (timestamp_us now) (timestamp_us (start_today now)));
      [lia|].
    rewrite (datetime_add_one_day _ Hr).
    unfold start_tomorrow, start_today; simpl.
    destruct Hwf as [Ho _].
    destruct (Z.ltb_spec 0 (toordinal now + 1)); [|lia]. reflexivity.
  - destruct (Z.ltb_spec (timestamp_us now) (timestamp_us (start_today now)));
      [|lia].
    unfold start_today; simpl.
    destruct Hwf as [Ho _].
    destruct (Z.leb_spec (toordinal now) MAXORDINAL); [reflexivity | lia].
Qed.

(** The next boundary is in the future, at most a day away. *)
Lemma spec_next_boundary_future now :
  wf_datetime now ->
  0 < timestamp_us (spec_next_boundary now) - timestamp_us now <= US_PER_DAY.
Proof.
  unfold wf_datetime, spec_next_boundary. intros (Ho & Hh & Hm & Hs & Hu).
  destruct (Z.ltb_spec (timestamp_us now) (timestamp_us (start_today now)))
    as [L|L];
    revert L;
    unfold timestamp_us, start_today, start_tomorrow, seconds_of_day,
      HEALTHY_START_HOUR, US_PER_DAY, US_PER_SECOND; simpl; lia.
Qed.

(** ** Counting in traces *)

Lemma count_spawn_app cmd tr tr' :
  count_spawn cmd (tr ++ tr') = (count_spawn cmd tr + count_spawn cmd tr')%nat.
Proof.
  unfold count_spawn. rewrite filter_app, length_app. reflexivity.
Qed.

Lemma stderr_lines_app tr tr' :
  stderr_lines (tr ++ tr') = stderr_lines tr ++ stderr_lines tr'.
Proof. unfold stderr_lines. apply flat_map_app. Qed.

Lemma sleeps_app tr tr' : sleeps (tr ++ tr') = sleeps tr ++ sleeps tr'.
Proof. unfold sleeps. apply flat_map_app. Qed.

(** ** The probe and the two actions, case by case *)

Section Reconcile.

Context {World : Type} `{Shell World} `{Locale}.

Lemma has_netem_cases (s : state World) :
  has_netem s =
  match spawn SHOW_CMD (world s) with
  | (Exited rc out, w) =>
      match decode out with
      | Some text =>
          (Returned ((rc =? 0) && contains NETEM text),
           spawned SHOW_CMD w s)
      | None => (Raised UnicodeDecodeError, spawned SHOW_CMD w s)
      end
  | (NotStarted, w) => (Raised OSError, spawned SHOW_CMD w s)
  end.
Proof.
  unfold has_netem, try_except_CalledProcessError, check_output, bind,
    popen, ret, raise.
  destruct (spawn SHOW_CMD (world s)) as [[rc out|] w]; [|reflexivity].
  destruct (decode out) as [text|]; [|reflexivity].
  destruct (rc =? 0); reflexivity.
Qed.

Lemma run_cases cmd (s : state World) :
  run cmd s =
  match spawn cmd (world s) with
  | (Exited rc _, w) =>
      (if rc =? 0 then Returned tt else Raised (CalledProcessError rc),
       spawned cmd w s)
  | (NotStarted, w) => (Raised OSError, spawned cmd w s)
  end.
Proof.
  unfold run, bind, popen, ret, raise.
  destruct (spawn cmd (world s)) as [[rc out|] w]; [|reflexivity].
  destruct (rc =? 0); reflexivity.
Qed.

(** The probe adds its query to the trace, and nothing else. *)
Lemma has_netem_trace (s s1 : state World) r :
  has_netem s = (r, s1) -> trace s1 = trace s ++ [Spawn SHOW_CMD].
Proof.
  rewrite has_netem_cases.
  destruct (spawn SHOW_CMD (world s)) as [[rc out|] w];
    [destruct (decode out)|]; intros E; inversion E; reflexivity.
Qed.

Lemma impair_cases (s : state World) :
  impair s =
  match has_netem s with
  | (Returned true, s1) => (Returned tt, s1)
  | (Returned false, s1) =>
      let s2 := record (Stdout MSG_APPLYING) s1 in
      match spawn IMPAIR_CMD (world s1) with
      | (Exited rc _, w) =>
          if rc =? 0 then (Returned tt, spawned IMPAIR_CMD w s2)
          else (Returned tt,
                record (Stderr MSG_APPLY_FAILED) (spawned IMPAIR_CMD w s2))
      | (NotStarted, w) => (Raised OSError, spawned IMPAIR_CMD w s2)
      end
  | (Raised e, s1) => (Raised e, s1)
  end.
Proof.
  unfold impair, bind at 1.
  destruct (has_netem s) as [[[|]|e] s1]; try reflexivity.
  unfold bind, emit, try_except_CalledProcessError.
  rewrite run_cases. simpl.
  destruct (spawn IMPAIR_CMD (world s1)) as [[rc out|] w]; [|reflexivity].
  destruct (rc =? 0); reflexivity.
Qed.

Lemma heal_cases (s : state World) :
  heal s =
  match has_netem s with
  | (Returned false, s1) => (Returned tt, s1)
  | (Returned true, s1) =>
      let s2 := record (Stdout MSG_REMOVING) s1 in
      match spawn HEAL_CMD (world s1) with
      | (Exited rc _, w) =>
          if (rc =? 0) || (rc =? 2) then (Returned tt, spawned HEAL_CMD w s2)
          else (Returned tt,
                record (Stderr MSG_REMOVE_FAILED) (spawned HEAL_CMD w s2))
      | (NotStarted, w) => (Raised OSError, spawned HEAL_CMD w s2)
      end
  | (Raised e, s1) => (Raised e, s1)
  end.
Proof.
  unfold heal, bind at 1.
  destruct (has_netem s) as [[[|]|e] s1]; try reflexivity.
  cbn [negb]. unfold bind, emit, try_except_CalledProcessError.
  rewrite run_cases. simpl.
  destruct (spawn HEAL_CMD (world s1)) as [[rc out|] w]; [|reflexivity].
  destruct (rc =? 0); [reflexivity|]. simpl.
  destruct (rc =? 2); reflexivity.
Qed.

End Reconcile.

(** ** The policy function *)

Lemma in_healthy_window_bounds (t : datetime) :
  in_healthy_window t = true <->
  HEALTHY_START_HOUR <= hour t < HEALTHY_END_HOUR.
Proof.
  unfold in_healthy_window. split.
  - intros E. apply andb_prop in E. lia.
  - intros [L U]. apply andb_true_intro. lia.
Qed.

(** C1. For every UTC time [t] the policy function answers Healthy exactly
    when [HEALTHY_START_HOUR <= t.hour < HEALTHY_END_HOUR]; at
    [t.hour = HEALTHY_START_HOUR] it answers Healthy and at
    [t.hour = HEALTHY_END_HOUR] it answers Impaired. *)
Theorem in_healthy_window_iff (t : datetime) :
  (in_healthy_window t = true <->
   HEALTHY_START_HOUR <= hour t < HEALTHY_END_HOUR) /\
  (hour t = HEALTHY_START_HOUR -> in_healthy_window t = true) /\
  (hour t = HEALTHY_END_HOUR -> in_healthy_window t = false).
Proof.
  split; [apply in_healthy_window_bounds | split].
  - intros E. unfold in_healthy_window. rewrite E. reflexivity.
  - intros E. unfold in_healthy_window. rewrite E. reflexivity.
Qed.

Lemma in_healthy_window_iff_witness :
  in_healthy_window (at_time 739417 3 0 0 0) = true /\
  in_healthy_window (at_time 739417 4 0 0 0) = false.
Proof.
  split.
  - apply (proj1 (proj2 (in_healthy_window_iff (at_time 739417 3 0 0 0)))).
    reflexivity.
  - apply (proj2 (proj2 (in_healthy_window_iff (at_time 739417 4 0 0 0)))).
    reflexivity.
Defined.

(** ** Reconciliation *)

(** Counts the commands of a trace given as appended pieces. *)
Ltac count_trace :=
  repeat (rewrite count_spawn_app; simpl);
  unfold count_spawn in *; simpl; lia.

Section ReconcileClaims.

Context {World : Type} `{Shell World} `{Locale}.

(** The probe starts neither the apply nor the removal command. *)
Lemma has_netem_count cmd (s s1 : state World) r :
  cmd_eqb SHOW_CMD cmd = false ->
  has_netem s = (r, s1) ->
  count_spawn cmd (trace s1) = count_spawn cmd (trace s).
Proof.
  intros Hc E. rewrite (has_netem_trace _ _ _ E), count_spawn_app.
  unfold count_spawn at 2; simpl. rewrite Hc. simpl. lia.
Qed.

(** One call of [impair] starts at most one apply command. *)
Lemma impair_count_le (s : state World) :
  (count_spawn IMPAIR_CMD (trace (snd (impair s)))
   <= S (count_spawn IMPAIR_CMD (trace s)))%nat.
Proof.
  rewrite impair_cases.
  destruct (has_netem s) as [r s1] eqn:E.
  pose proof (has_netem_count IMPAIR_CMD s s1 r eq_refl E) as Hc.
  destruct r as [[|]|e]; simpl; try lia.
  destruct (spawn IMPAIR_CMD (world s1)) as [[rc out|] w];
    [destruct (rc =? 0)|]; simpl;
    count_trace.
Qed.

(** One call of [heal] starts at most one removal command. *)
Lemma heal_count_le (s : state World) :
  (count_spawn HEAL_CMD (trace (snd (heal s)))
   <= S (count_spawn HEAL_CMD (trace s)))%nat.
Proof.
  rewrite heal_cases.
  destruct (has_netem s) as [r s1] eqn:E.
  pose proof (has_netem_count HEAL_CMD s s1 r eq_refl E) as Hc.
  destruct r as [[|]|e]; simpl; try lia.
  destruct (spawn HEAL_CMD (world s1)) as [[rc out|] w];
    [destruct ((rc =? 0) || (rc =? 2))|]; simpl;
    count_trace.
Qed.

(** When the probe reports impairment, [impair] does nothing more. *)
Lemma impair_noop (s s1 : state World) :
  has_netem s = (Returned true, s1) ->
  impair s = (Returned tt, s1) /\ trace s1 = trace s ++ [Spawn SHOW_CMD].
Proof.
  intros E. split.
  - rewrite impair_cases, E. reflexivity.
  - exact (has_netem_trace _ _ _ E).
Qed.

(** When the probe reports no impairment, [impair] starts the apply
    command once and the removal command never. *)
Lemma impair_applies_once (s s1 : state World) :
  has_netem s = (Returned false, s1) ->
  count_spawn IMPAIR_CMD (trace (snd (impair s)))
    = S (count_spawn IMPAIR_CMD (trace s)) /\
  count_spawn HEAL_CMD (trace (snd (impair s)))
    = count_spawn HEAL_CMD (trace s).
Proof.
  intros E. rewrite impair_cases, E.
  pose proof (has_netem_count IMPAIR_CMD s s1 _ eq_refl E) as Hi.
  pose proof (has_netem_count HEAL_CMD s s1 _ eq_refl E) as Hh.
  destruct (spawn IMPAIR_CMD (world s1)) as [[rc out|] w];
    [destruct (rc =? 0)|]; simpl;
    count_trace.
Qed.

(** Two calls of [impair] in a row, the first apply succeeding and being
    seen by the next query. *)
Lemma impair_twice :
  (forall w out w',
      spawn IMPAIR_CMD w = (Exited 0 out, w') -> query_reports_netem w') ->
  forall s : state World,
    (forall s1, has_netem s = (Returned false, s1) ->
                exits_ok IMPAIR_CMD (world s1)) ->
    (count_spawn IMPAIR_CMD (trace (snd ((impair ;; impair) s)))
     <= S (count_spawn IMPAIR_CMD (trace s)))%nat.
Proof.
  intros Hseen s Hok. unfold bind.
  rewrite (impair_cases s).
  destruct (has_netem s) as [r s1] eqn:E.
  pose proof (has_netem_count IMPAIR_CMD s s1 r eq_refl E) as Hc.
  destruct r as [[|]|e].
  - rewrite <- Hc. apply impair_count_le.
  - destruct (Hok s1 eq_refl) as (out & w' & Ew).
    rewrite Ew. simpl.
    destruct (Hseen _ _ _ Ew) as (out' & text & w'' & Eq' & Hdec & Hn).
    rewrite impair_cases, has_netem_cases. simpl.
    rewrite Eq', Hdec, Hn. simpl.
    count_trace.
  - simpl. lia.
Qed.

(** Two calls of [heal] in a row, the first removal succeeding and the
    next query showing no netem. *)
Lemma heal_twice :
  (forall w out w',
      spawn HEAL_CMD w = (Exited 0 out, w') -> query_reports_clean w') ->
  forall s : state World,
    (forall s1, has_netem s = (Returned true, s1) ->
                exits_ok HEAL_CMD (world s1)) ->
    (count_spawn HEAL_CMD (trace (snd ((heal ;; heal) s)))
     <= S (count_spawn HEAL_CMD (trace s)))%nat.
Proof.
  intros Hgone s Hok. unfold bind.
  rewrite (heal_cases s).
  destruct (has_netem s) as [r s1] eqn:E.
  pose proof (has_netem_count HEAL_CMD s s1 r eq_refl E) as Hc.
  destruct r as [[|]|e].
  - destruct (Hok s1 eq_refl) as (out & w' & Ew).
    rewrite Ew. simpl.
    pose proof (Hgone _ _ _ Ew) as Hclean.
    rewrite heal_cases, has_netem_cases. simpl.
    destruct (spawn SHOW_CMD w') as [[rc' out'|] w''] eqn:Eq'.
    + destruct (decode out') as [text|] eqn:Hdec.
      * assert (Hb : (rc' =? 0) && contains NETEM text = false).
        { destruct (Z.eqb_spec rc' 0) as [->|]; [|reflexivity].
          simpl. exact (Hclean _ _ _ Eq' Hdec). }
        rewrite Hb. simpl.
        count_trace.
      * simpl.
        count_trace.
    + simpl.
      count_trace.
  - rewrite <- Hc. apply heal_count_le.
  - simpl. lia.
Qed.

(** C2 (amended). When the probe reports impaired, [impair] issues no
    command beyond the probe's query; when the probe reports not impaired,
    [impair] issues exactly one apply command and no removal; and two
    consecutive calls of [impair] (resp. [heal]) with no interference
    issue at most one apply (resp. removal) command in total, provided
    the command of the first call, if issued, exits with status 0 and the
    following query reflects it. *)
Theorem reconcile_minimal_commands :
  (forall s s1 : state World,
      has_netem s = (Returned true, s1) ->
      impair s = (Returned tt, s1) /\
      trace s1 = trace s ++ [Spawn SHOW_CMD]) /\
  (forall s s1 : state World,
      has_netem s = (Returned false, s1) ->
      count_spawn IMPAIR_CMD (trace (snd (impair s)))
        = S (count_spawn IMPAIR_CMD (trace s)) /\
      count_spawn HEAL_CMD (trace (snd (impair s)))
        = count_spawn HEAL_CMD (trace s)) /\
  ((forall w out w',
       spawn IMPAIR_CMD w = (Exited 0 out, w') -> query_reports_netem w') ->
   forall s : state World,
     (forall s1, has_netem s = (Returned false, s1) ->
                 exits_ok IMPAIR_CMD (world s1)) ->
     (count_spawn IMPAIR_CMD (trace (snd ((impair ;; impair) s)))
      <= S (count_spawn IMPAIR_CMD (trace s)))%nat) /\
  ((forall w out w',
       spawn HEAL_CMD w = (Exited 0 out, w') -> query_reports_clean w') ->
   forall s : state World,
     (forall s1, has_netem s = (Returned true, s1) ->
                 exits_ok HEAL_CMD (world s1)) ->
     (count_spawn HEAL_CMD (trace (snd ((heal ;; heal) s)))
      <= S (count_spawn HEAL_CMD (trace s)))%nat).
Proof.
  split; [exact impair_noop |].
  split; [exact impair_applies_once |].
  split; [exact impair_twice | exact heal_twice].
Qed.

(** A probe that raises ends [impair] and [heal] where it ends. *)
Lemma probe_raises_through (s s1 : state World) e :
  has_netem s = (Raised e, s1) ->
  heal s = (Raised e, s1) /\ impair s = (Raised e, s1).
Proof.
  intros E. rewrite heal_cases, impair_cases, E. split; reflexivity.
Qed.

(** C5 (amended). When the query runs, prints a text of the locale and
    exits with a non-zero status, the probe returns false instead of
    raising; then [heal] does nothing beyond the probe and [impair]
    issues one apply command, whatever the real state of the interface.
    When the query cannot be started, or prints what is no text, the
    probe does not return false: it raises [OSError], or
    [UnicodeDecodeError], and so do [heal] and [impair], with no further
    command. *)
Theorem probe_failure_fallback (s : state World) :
  (forall rc out text w,
      spawn SHOW_CMD (world s) = (Exited rc out, w) ->
      decode out = Some text ->
      rc <> 0 ->
      has_netem s = (Returned false, spawned SHOW_CMD w s) /\
      heal s = (Returned tt, spawned SHOW_CMD w s) /\
      count_spawn IMPAIR_CMD (trace (snd (impair s)))
        = S (count_spawn IMPAIR_CMD (trace s))) /\
  (forall w,
      spawn SHOW_CMD (world s) = (NotStarted, w) ->
      has_netem s = (Raised OSError, spawned SHOW_CMD w s) /\
      heal s = (Raised OSError, spawned SHOW_CMD w s) /\
      impair s = (Raised OSError, spawned SHOW_CMD w s)) /\
  (forall rc out w,
      spawn SHOW_CMD (world s) = (Exited rc out, w) ->
      decode out = None ->
      has_netem s = (Raised UnicodeDecodeError, spawned SHOW_CMD w s) /\
      heal s = (Raised UnicodeDecodeError, spawned SHOW_CMD w s) /\
      impair s = (Raised UnicodeDecodeError, spawned SHOW_CMD w s)).
Proof.
  split; [|split].
  - intros rc out text w Ew Hdec Hrc.
    assert (E : has_netem s = (Returned false, spawned SHOW_CMD w s)).
    { rewrite has_netem_cases, Ew, Hdec.
      destruct (Z.eqb_spec rc 0); [contradiction | reflexivity]. }
    split; [exact E |]. split.
    + rewrite heal_cases, E. reflexivity.
    + exact (proj1 (impair_applies_once _ _ E)).
  - intros w Ew.
    assert (E : has_netem s = (Raised OSError, spawned SHOW_CMD w s))
      by (rewrite has_netem_cases, Ew; reflexivity).
    split; [exact E | exact (probe_raises_through _ _ _ E)].
  - intros rc out w Ew Hdec.
    assert (E : has_netem s
                = (Raised UnicodeDecodeError, spawned SHOW_CMD w s))
      by (rewrite has_netem_cases, Ew, Hdec; reflexivity).
    split; [exact E | exact (probe_raises_through _ _ _ E)].
Qed.

(** C6. In [heal], when the removal command is issued and fails, a return
    code 2 writes nothing to stderr, any other code writes one line to
    stderr, and in both cases [heal] returns normally. *)
Theorem heal_removal_failure (s s1 : state World) rc out w :
  has_netem s = (Returned true, s1) ->
  spawn HEAL_CMD (world s1) = (Exited rc out, w) ->
  rc <> 0 ->
  fst (heal s) = Returned tt /\
  count_spawn HEAL_CMD (trace (snd (heal s)))
    = S (count_spawn HEAL_CMD (trace s)) /\
  (rc = 2 ->
   stderr_lines (trace (snd (heal s))) = stderr_lines (trace s)) /\
  (rc <> 2 ->
   stderr_lines (trace (snd (heal s)))
     = stderr_lines (trace s) ++ [MSG_REMOVE_FAILED]).
Proof.
  intros E Ew Hrc. rewrite heal_cases, E, Ew.
  pose proof (has_netem_trace _ _ _ E) as Ht.
  pose proof (has_netem_count HEAL_CMD s s1 _ eq_refl E) as Hc.
  destruct (Z.eqb_spec rc 0) as [|_]; [contradiction|]. simpl.
  destruct (Z.eqb_spec rc 2) as [E2|N2]; simpl.
  - split; [reflexivity|]. split.
    { rewrite !count_spawn_app, Hc. unfold count_spawn; simpl. lia. }
    rewrite !stderr_lines_app, Ht, stderr_lines_app. simpl.
    rewrite !app_nil_r.
    split; [reflexivity | intros N; contradiction].
  - split; [reflexivity|]. split.
    { rewrite !count_spawn_app, Hc. unfold count_spawn; simpl. lia. }
    rewrite !stderr_lines_app, Ht, stderr_lines_app. simpl.
    rewrite !app_nil_r.
    split; [intros N; contradiction | reflexivity].
Qed.

End ReconcileClaims.

(** ** Seconds *)

Lemma py_min_Qmin a b : py_min a b = Qmin a b.
Proof.
  unfold py_min, Qmin, GenericMinMax.gmin.
  rewrite <- (Qcompare_antisym a b).
  destruct (a ?= b)%Q; reflexivity.
Qed.

(** The microseconds between two instants, divided by 10^6, are the
    seconds between them. *)
Lemma exact_seconds_sub a b :
  (Qmake (datetime_sub a b) 1000000 == time_until b a)%Q.
Proof.
  unfold time_until, timestamp.
  rewrite <- datetime_sub_timestamp.
  unfold Qeq, Qminus, Qplus, Qopp. simpl. ring.
Qed.

Lemma total_seconds_float a b :
  total_seconds (datetime_sub a b) = float_time_until b a.
Proof.
  unfold total_seconds, float_time_until.
  rewrite datetime_sub_timestamp. reflexivity.
Qed.

(** [total_seconds()] of a positive timedelta is within the relative
    error 2^-53 of its seconds. *)
Lemma total_seconds_bounds td :
  0 < td ->
  (Qmake td 1000000 * (1 - Double.U) <= total_seconds td /\
   total_seconds td <= Qmake td 1000000 * (1 + Double.U))%Q.
Proof.
  intros Htd. unfold total_seconds. apply DoubleFacts.round_bounds.
  unfold Qle. simpl. lia.
Qed.

Lemma total_seconds_pos td : 0 < td -> (0 < total_seconds td)%Q.
Proof.
  intros Htd. destruct (total_seconds_bounds td Htd) as [Hlo _].
  assert (Hx : (0 < Qmake td 1000000)%Q) by (unfold Qlt; simpl; lia).
  revert Hlo Hx. generalize (total_seconds td) (Qmake td 1000000).
  intros r x. unfold Double.U. lra.
Qed.

(** The time until a later instant, as [total_seconds()] gives it, is
    within the relative error 2^-53 of the exact time. *)
Lemma float_time_until_bounds now b :
  timestamp_us now < timestamp_us b ->
  (time_until now b * (1 - Double.U) <= float_time_until now b /\
   float_time_until now b <= time_until now b * (1 + Double.U))%Q.
Proof.
  intros Hlt. rewrite <- total_seconds_float.
  assert (Htd : 0 < datetime_sub b now)
    by (rewrite <- datetime_sub_timestamp; lia).
  destruct (total_seconds_bounds _ Htd) as [Hlo Hhi].
  pose proof (exact_seconds_sub b now) as Hx.
  revert Hlo Hhi. generalize (total_seconds (datetime_sub b now)).
  intros r Hlo Hhi. rewrite Hx in Hlo, Hhi. split; assumption.
Qed.

(** The float sum of a float and one. *)
Lemma add_one_bounds x :
  (0 <= x)%Q ->
  ((x + 1) * (1 - Double.U) <= Double.add x 1 /\
   Double.add x 1 <= (x + 1) * (1 + Double.U))%Q.
Proof.
  intros Hx. unfold Double.add. apply DoubleFacts.round_bounds.
  unfold Qle in *. simpl in *. lia.
Qed.

(** ** The sleep of one iteration *)

Section Schedule.

Context {World : Type} `{Shell World} `{Locale}.

Lemma time_sleep_nonneg q (s : state World) :
  (0 <= q)%Q -> time_sleep q s = (Returned tt, record (Sleep q) s).
Proof.
  intros Hq. unfold time_sleep.
  destruct (Qcompare_spec q 0) as [E|L|G]; try reflexivity.
  exfalso. apply (Qlt_not_le _ _ L). exact Hq.
Qed.

Lemma time_sleep_negative q (s : state World) :
  (q < 0)%Q -> time_sleep q s = (Raised ValueError, s).
Proof.
  intros Hq. unfold time_sleep.
  destruct (Qcompare_spec q 0) as [E|L|G]; try reflexivity.
  - exfalso. rewrite E in Hq. exact (Qlt_irrefl _ Hq).
  - exfalso. exact (Qlt_irrefl _ (Qlt_trans _ _ _ G Hq)).
Qed.

(** The healthy branch once [heal] has returned. *)
Lemma healthy_branch_after_heal now (s s1 : state World) :
  heal s = (Returned tt, s1) ->
  healthy_branch now s =
  if datetime_le (next_transition now) now
  then time_sleep (inject_Z CHECK_INTERVAL) s1
  else time_sleep
         (Double.add
            (total_seconds (datetime_sub (next_transition now) now)) 1)
         (record (Stdout MSG_HEALTHY) s1).
Proof.
  intros E. unfold healthy_branch, bind. rewrite E.
  destruct (datetime_le (next_transition now) now); reflexivity.
Qed.

(** The impaired branch once [impair] has returned. *)
Lemma impaired_branch_after_impair now (s s1 : state World) :
  impair s = (Returned tt, s1) ->
  impaired_branch now s =
  match next_start now with
  | Some b =>
      time_sleep
        (py_min (total_seconds (datetime_sub b now))
                (inject_Z CHECK_INTERVAL)) s1
  | None => (Raised OverflowError, s1)
  end.
Proof.
  intros E. unfold impaired_branch, bind. rewrite E.
  destruct (next_start now); reflexivity.
Qed.

Lemma wf_time_next_transition now : wf_time (next_transition now).
Proof.
  apply wf_time_replace. unfold HEALTHY_END_HOUR. lia.
Qed.

(** The sleep of the impaired branch, for a boundary that exists. *)
Lemma impaired_branch_sleep now (s s1 : state World) :
  wf_datetime now ->
  boundary_exists now ->
  impair s = (Returned tt, s1) ->
  exists d,
    impaired_branch now s = (Returned tt, record (Sleep d) s1) /\
    d = Qmin (total_seconds (datetime_sub (spec_next_boundary now) now))
             (inject_Z CHECK_INTERVAL) /\
    (0 < d)%Q /\ (d <= inject_Z CHECK_INTERVAL)%Q.
Proof.
  intros Hwf Hex E.
  rewrite (impaired_branch_after_impair now s s1 E).
  rewrite (next_start_spec now Hwf).
  unfold boundary_exists in Hex.
  destruct (Z.leb_spec (toordinal (spec_next_boundary now)) MAXORDINAL);
    [|lia].
  rewrite py_min_Qmin.
  pose proof (spec_next_boundary_future now Hwf) as [Hpos _].
  rewrite datetime_sub_timestamp in Hpos.
  pose proof (total_seconds_pos _ Hpos) as Hd.
  set (d := Qmin _ _).
  assert (Hd0 : (0 < d)%Q).
  { apply Q.min_glb_lt; [exact Hd | reflexivity]. }
  exists d. split.
  - apply time_sleep_nonneg. apply Qlt_le_weak. exact Hd0.
  - split; [reflexivity|]. split; [exact Hd0 | apply Q.le_min_r].
Qed.

(** Inside the window the end of the window is later than [now]. *)
Lemma next_transition_later now :
  in_healthy_window now = true ->
  datetime_compare (next_transition now) now = Gt.
Proof.
  intros E. apply (proj1 (in_healthy_window_bounds now)) in E.
  unfold datetime_compare, next_transition, replace_time; simpl.
  rewrite Z.compare_refl.
  assert (Hh : hour now = 3)
    by (unfold HEALTHY_START_HOUR, HEALTHY_END_HOUR in E; lia).
  rewrite Hh. reflexivity.
Qed.

(** The sleep of the healthy branch before the end of the window: the
    float sum of the float time until the end and one; it is more than
    a second, and within a nanosecond of the time until the end plus a
    second. *)
Lemma healthy_branch_sleep now (s s1 : state World) :
  wf_datetime now ->
  timestamp_us now < timestamp_us (next_transition now) ->
  heal s = (Returned tt, s1) ->
  exists d,
    healthy_branch now s
      = (Returned tt, record (Sleep d) (record (Stdout MSG_HEALTHY) s1)) /\
    d = Double.add (float_time_until now (next_transition now)) 1 /\
    (1 < d)%Q /\
    (time_until now (next_transition now) + 1 - NANOSECOND <= d)%Q /\
    (d <= time_until now (next_transition now) + 1 + NANOSECOND)%Q.
Proof.
  intros Hwf Hlt E.
  rewrite (healthy_branch_after_heal now s s1 E).
  rewrite (datetime_le_timestamp _ _ (wf_time_next_transition now)
             (wf_datetime_time now Hwf)).
  destruct (Z.leb_spec (timestamp_us (next_transition now))
              (timestamp_us now));
    [lia|].
  rewrite total_seconds_float.
  destruct (float_time_until_bounds now (next_transition now) Hlt)
    as [Hlo Hhi].
  assert (Hx : (1 # 1000000 <= time_until now (next_transition now))%Q /\
               (time_until now (next_transition now) <= 14400)%Q).
  { rewrite <- (exact_seconds_sub (next_transition now) now).
    rewrite <- datetime_sub_timestamp.
    destruct Hwf as (Ho & Hh & Hm & Hs & Hu). revert Hlt.
    unfold timestamp_us, next_transition, replace_time, seconds_of_day,
      HEALTHY_END_HOUR, US_PER_DAY, US_PER_SECOND, Qle; simpl.
    lia. }
  set (x := time_until now (next_transition now)) in *.
  set (delta := float_time_until now (next_transition now)) in *.
  assert (Hd0 : (0 <= delta)%Q) by (unfold Double.U in Hlo; lra).
  destruct (add_one_bounds delta Hd0) as [Hlo' Hhi'].
  set (d := Double.add delta 1) in *.
  unfold Double.U, NANOSECOND in *.
  exists d. split; [|split; [reflexivity|]].
  - apply time_sleep_nonneg. lra.
  - repeat split; lra.
Qed.

(** C3 (amended). In the Impaired state, for every current UTC time [now]
    whose next boundary is a date that exists (every time but those at or
    after the start of the window on 9999-12-31), the scheduler computes
    the next boundary as the start-of-window instant today if that
    instant is still in the future, else the same instant tomorrow, and
    then sleeps for exactly the minimum of delta and the fixed poll
    interval, where delta is the time until that boundary as
    [total_seconds()] returns it: the float nearest to it, within the
    relative error 2^-53 of the exact time. *)
Theorem impaired_sleep_exact now (s s1 : state World) :
  wf_datetime now ->
  in_healthy_window now = false ->
  boundary_exists now ->
  impair s = (Returned tt, s1) ->
  next_start now = Some (spec_next_boundary now) /\
  main_iteration now s
    = (Returned tt,
       record (Sleep (Qmin (float_time_until now (spec_next_boundary now))
                           (inject_Z CHECK_INTERVAL))) s1) /\
  (time_until now (spec_next_boundary now) * (1 - Double.U)
   <= float_time_until now (spec_next_boundary now))%Q /\
  (float_time_until now (spec_next_boundary now)
   <= time_until now (spec_next_boundary now) * (1 + Double.U))%Q.
Proof.
  intros Hwf Hout Hex E. split.
  - rewrite (next_start_spec now Hwf). unfold boundary_exists in Hex.
    destruct (Z.leb_spec (toordinal (spec_next_boundary now)) MAXORDINAL);
      [reflexivity | lia].
  - split.
    + unfold main_iteration. rewrite Hout.
      destruct (impaired_branch_sleep now s s1 Hwf Hex E)
        as (d & Hrun & Hd & _).
      rewrite Hrun, Hd, total_seconds_float. reflexivity.
    + apply float_time_until_bounds.
      pose proof (spec_next_boundary_future now Hwf). lia.
Qed.

(** C4. In the Healthy state, for every current UTC time [now] (it is
    strictly before the end-of-window instant), the scheduler sleeps
    until that instant plus a small epsilon, a second to within a
    nanosecond, so the wake-up target is at or after the end of the
    window, never before it. The healthy branch does so at every [now]
    strictly before the end-of-window instant; when that instant is not
    after [now], it sleeps for the fixed poll interval instead. *)
Theorem healthy_sleep_target now (s s1 : state World) :
  wf_datetime now ->
  heal s = (Returned tt, s1) ->
  (in_healthy_window now = true ->
   exists d,
     main_iteration now s
       = (Returned tt, record (Sleep d) (record (Stdout MSG_HEALTHY) s1)) /\
     (timestamp (next_transition now) <= timestamp now + d)%Q /\
     (timestamp (next_transition now) + 1 - NANOSECOND
      <= timestamp now + d)%Q /\
     (timestamp now + d
      <= timestamp (next_transition now) + 1 + NANOSECOND)%Q) /\
  (timestamp_us now < timestamp_us (next_transition now) ->
   exists d,
     healthy_branch now s
       = (Returned tt, record (Sleep d) (record (Stdout MSG_HEALTHY) s1)) /\
     (timestamp (next_transition now) <= timestamp now + d)%Q /\
     (timestamp (next_transition now) + 1 - NANOSECOND
      <= timestamp now + d)%Q /\
     (timestamp now + d
      <= timestamp (next_transition now) + 1 + NANOSECOND)%Q) /\
  (timestamp_us (next_transition now) <= timestamp_us now ->
   healthy_branch now s
     = (Returned tt, record (Sleep (inject_Z CHECK_INTERVAL)) s1)).
Proof.
  intros Hwf E.
  assert (Hbefore :
    timestamp_us now < timestamp_us (next_transition now) ->
    exists d,
      healthy_branch now s
        = (Returned tt,
           record (Sleep d) (record (Stdout MSG_HEALTHY) s1)) /\
      (timestamp (next_transition now) <= timestamp now + d)%Q /\
      (timestamp (next_transition now) + 1 - NANOSECOND
       <= timestamp now + d)%Q /\
      (timestamp now + d
       <= timestamp (next_transition now) + 1 + NANOSECOND)%Q).
  { intros Hlt.
    destruct (healthy_branch_sleep now s s1 Hwf Hlt E)
      as (d & Hrun & _ & _ & Hlo & Hhi).
    exists d. split; [exact Hrun|].
    unfold time_until, NANOSECOND in *. repeat split; lra. }
  split; [|split; [exact Hbefore|]].
  - intros Hin. unfold main_iteration. rewrite Hin. apply Hbefore.
    pose proof (next_transition_later now Hin) as Hgt.
    rewrite (datetime_compare_timestamp _ _ (wf_time_next_transition now)
               (wf_datetime_time now Hwf)) in Hgt.
    apply Z.compare_gt_iff in Hgt. exact Hgt.
  - intros Hle.
    rewrite (healthy_branch_after_heal now s s1 E).
    rewrite (datetime_le_timestamp _ _ (wf_time_next_transition now)
               (wf_datetime_time now Hwf)).
    destruct (Z.leb_spec (timestamp_us (next_transition now))
                (timestamp_us now));
      [|lia].
    apply time_sleep_nonneg. unfold CHECK_INTERVAL, Qle. simpl. lia.
Qed.

(** C9. For every UTC time [now] inside the healthy window (start hour
    3, end hour 4), the end-of-window instant of the same day is strictly
    greater than [now], so the iteration never takes the branch that
    sleeps for the fixed poll interval: it is the healthy branch without
    it. *)
Theorem healthy_fallback_unreachable now :
  in_healthy_window now = true ->
  datetime_compare (next_transition now) now = Gt /\
  datetime_le (next_transition now) now = false /\
  forall s : state World,
    main_iteration now s =
    (heal ;;
     emit (Stdout MSG_HEALTHY) ;;
     time_sleep
       (Double.add
          (total_seconds (datetime_sub (next_transition now) now)) 1)) s.
Proof.
  intros E. pose proof (next_transition_later now E) as Hgt.
  assert (Hle : datetime_le (next_transition now) now = false)
    by (unfold datetime_le; rewrite Hgt; reflexivity).
  split; [exact Hgt|]. split; [exact Hle|].
  intros s. unfold main_iteration, healthy_branch. rewrite E, Hle.
  reflexivity.
Qed.


End Schedule.

(** ** The whole loop *)

Section Loop.

Context {World : Type} `{Shell World} `{Locale}.

Lemma sleeps_record_other e (s : state World) :
  (forall q, e <> Sleep q) ->
  sleeps (trace (record e s)) = sleeps (trace s).
Proof.
  intros He. unfold record; simpl. rewrite sleeps_app.
  destruct e as [c|l|l|q]; simpl; try apply app_nil_r.
  exfalso. apply (He q). reflexivity.
Qed.

Lemma sleeps_spawned cmd w (s : state World) :
  sleeps (trace (spawned cmd w s)) = sleeps (trace s).
Proof. unfold spawned; simpl. rewrite sleeps_app. apply app_nil_r. Qed.

Lemma sleeps_record_sleep d (s : state World) :
  sleeps (trace (record (Sleep d) s)) = sleeps (trace s) ++ [d].
Proof. unfold record; simpl. rewrite sleeps_app. reflexivity. Qed.

(** When every command runs to an exit status and the output of the
    query is a text, the probe returns. *)
Lemma has_netem_returns :
  always_exits World ->
  query_decodes World ->
  forall s : state World,
  exists b s1,
    has_netem s = (Returned b, s1) /\ sleeps (trace s1) = sleeps (trace s).
Proof.
  intros Hex Hdec s. rewrite has_netem_cases.
  destruct (Hex SHOW_CMD (world s)) as (rc & out & w & Ew). rewrite Ew.
  destruct (Hdec _ _ _ _ Ew) as (text & Et). rewrite Et.
  eexists. eexists. split; [reflexivity | apply sleeps_spawned].
Qed.

Lemma impair_returns :
  always_exits World ->
  query_decodes World ->
  forall s : state World,
  exists s1,
    impair s = (Returned tt, s1) /\ sleeps (trace s1) = sleeps (trace s).
Proof.
  intros Hex Hdec s. rewrite impair_cases.
  destruct (has_netem_returns Hex Hdec s) as (b & s1 & E & Hs). rewrite E.
  destruct b; [exists s1; auto|].
  destruct (Hex IMPAIR_CMD (world s1)) as (rc & out & w & Ew). rewrite Ew.
  cbv zeta. destruct (rc =? 0); eexists; (split; [reflexivity|]).
  - rewrite sleeps_spawned, sleeps_record_other by discriminate. exact Hs.
  - rewrite sleeps_record_other, sleeps_spawned, sleeps_record_other
      by discriminate. exact Hs.
Qed.

Lemma heal_returns :
  always_exits World ->
  query_decodes World ->
  forall s : state World,
  exists s1,
    heal s = (Returned tt, s1) /\ sleeps (trace s1) = sleeps (trace s).
Proof.
  intros Hex Hdec s. rewrite heal_cases.
  destruct (has_netem_returns Hex Hdec s) as (b & s1 & E & Hs). rewrite E.
  destruct b; [|exists s1; auto].
  destruct (Hex HEAL_CMD (world s1)) as (rc & out & w & Ew). rewrite Ew.
  cbv zeta. destruct ((rc =? 0) || (rc =? 2)); eexists;
    (split; [reflexivity|]).
  - rewrite sleeps_spawned, sleeps_record_other by discriminate. exact Hs.
  - rewrite sleeps_record_other, sleeps_spawned, sleeps_record_other
      by discriminate. exact Hs.
Qed.

(** One iteration: it returns, and it has slept once, for a positive
    time. *)
Lemma main_iteration_completes :
  always_exits World ->
  query_decodes World ->
  forall now, schedulable now ->
  forall s : state World,
  exists s' d,
    main_iteration now s = (Returned tt, s') /\
    sleeps (trace s') = sleeps (trace s) ++ [d] /\ (0 < d)%Q.
Proof.
  intros Hex Hdec now [Hwf Hsched] s. unfold main_iteration.
  destruct (in_healthy_window now) eqn:Ewin.
  - destruct (heal_returns Hex Hdec s) as (s1 & E & Hs).
    pose proof (next_transition_later now Ewin) as Hgt.
    rewrite (datetime_compare_timestamp _ _ (wf_time_next_transition now)
               (wf_datetime_time now Hwf)) in Hgt.
    apply Z.compare_gt_iff in Hgt.
    destruct (healthy_branch_sleep now s s1 Hwf Hgt E)
      as (d & Hrun & _ & Hd & _).
    eexists. exists d. split; [exact Hrun|]. split.
    + rewrite sleeps_record_sleep, sleeps_record_other by discriminate.
      rewrite Hs. reflexivity.
    + lra.
  - destruct Hsched as [Hin | Hb]; [discriminate|].
    destruct (impair_returns Hex Hdec s) as (s1 & E & Hs).
    destruct (impaired_branch_sleep now s s1 Hwf Hb E)
      as (d & Hrun & _ & Hpos & _).
    eexists. exists d. split; [exact Hrun|]. split; [|exact Hpos].
    rewrite sleeps_record_sleep, Hs. reflexivity.
Qed.

(** An iteration whose probe raises ends there, with that exception. *)
Lemma main_iteration_probe_raises now (s s1 : state World) e :
  has_netem s = (Raised e, s1) ->
  main_iteration now s = (Raised e, s1).
Proof.
  intros E. destruct (probe_raises_through _ _ _ E) as [Hh Hi].
  unfold main_iteration.
  destruct (in_healthy_window now);
    unfold healthy_branch, impaired_branch, bind;
    rewrite ?Hh, ?Hi; reflexivity.
Qed.

(** C7 (amended). No non-zero exit status of a probe, apply or removal
    command is fatal: when every invoked command runs to an exit status,
    zero or not, and the output of the query is a text of the locale,
    each loop iteration completes (the failure is at most logged) and
    the loop continues, having slept once per clock reading, for every
    sequence of schedulable clock readings. A query that cannot be
    started, or whose output is no text, is fatal: the loop ends at once
    with [OSError], or with [UnicodeDecodeError]. *)
Theorem exit_status_never_fatal :
  (always_exits World ->
   query_decodes World ->
   forall clock, Forall schedulable clock ->
   forall s : state World,
   exists s',
     main_loop clock s = (Returned tt, s') /\
     List.length (sleeps (trace s'))
       = (List.length (sleeps (trace s)) + List.length clock)%nat) /\
  (forall now later (s : state World) w,
      spawn SHOW_CMD (world s) = (NotStarted, w) ->
      main_loop (now :: later) s = (Raised OSError, spawned SHOW_CMD w s)) /\
  (forall now later (s : state World) rc out w,
      spawn SHOW_CMD (world s) = (Exited rc out, w) ->
      decode out = None ->
      main_loop (now :: later) s
        = (Raised UnicodeDecodeError, spawned SHOW_CMD w s)).
Proof.
  split; [|split].
  - intros Hex Hdec clock Hclock.
    induction Hclock as [|now later Hnow _ IH].
    + intros s. exists s. split; [reflexivity | simpl; lia].
    + intros s.
      destruct (main_iteration_completes Hex Hdec now Hnow s)
        as (s1 & d & Hrun & Hs & _).
      destruct (IH s1) as (s' & Hloop & Hlen).
      exists s'. split.
      * simpl. unfold bind. rewrite Hrun. exact Hloop.
      * rewrite Hlen, Hs, length_app. simpl. lia.
  - intros now later s w Ew. simpl. unfold bind.
    rewrite (main_iteration_probe_raises now s (spawned SHOW_CMD w s)
               OSError); [reflexivity|].
    rewrite has_netem_cases, Ew. reflexivity.
  - intros now later s rc out w Ew Hdec. simpl. unfold bind.
    rewrite (main_iteration_probe_raises now s (spawned SHOW_CMD w s)
               UnicodeDecodeError); [reflexivity|].
    rewrite has_netem_cases, Ew, Hdec. reflexivity.
Qed.

(** C8 (amended). For [now] = 23:50 UTC, on any day but the last, the
    computed state is Impaired, the next boundary is tomorrow's 03:00
    UTC instant, which is 11400 seconds away, and the sleep duration is
    the minimum of 11400 and the poll interval. *)
Theorem scenario_2350 (day : Z) (s s1 : state World) :
  1 <= day < MAXORDINAL ->
  impair s = (Returned tt, s1) ->
  in_healthy_window (at_time day 23 50 0 0) = false /\
  next_start (at_time day 23 50 0 0) = Some (at_time (day + 1) 3 0 0 0) /\
  (time_until (at_time day 23 50 0 0) (at_time (day + 1) 3 0 0 0)
   == 11400)%Q /\
  exists d,
    main_iteration (at_time day 23 50 0 0) s
      = (Returned tt, record (Sleep d) s1) /\
    (d == Qmin 11400 (inject_Z CHECK_INTERVAL))%Q.
Proof.
  intros Hday E. set (now := at_time day 23 50 0 0).
  assert (Hwf : wf_datetime now)
    by (unfold wf_datetime, now, at_time; simpl; lia).
  assert (Hb : spec_next_boundary now = at_time (day + 1) 3 0 0 0).
  { unfold spec_next_boundary.
    destruct (Z.ltb_spec (timestamp_us now) (timestamp_us (start_today now)))
      as [L|L]; [|reflexivity].
    revert L. unfold timestamp_us, start_today, seconds_of_day, now, at_time,
      HEALTHY_START_HOUR, US_PER_DAY, US_PER_SECOND; simpl. lia. }
  assert (Hex : boundary_exists now).
  { unfold boundary_exists. rewrite Hb. simpl. lia. }
  assert (Hu : (time_until now (at_time (day + 1) 3 0 0 0) == 11400)%Q).
  { unfold time_until, timestamp, timestamp_us, seconds_of_day, now, at_time,
      US_PER_DAY, US_PER_SECOND, Qeq, Qminus, Qplus, Qopp. simpl. ring. }
  split; [reflexivity|]. split.
  { rewrite (next_start_spec now Hwf), Hb. simpl.
    destruct (Z.leb_spec (day + 1) MAXORDINAL); [reflexivity | lia]. }
  split; [exact Hu|].
  destruct (impaired_branch_sleep now s s1 Hwf Hex E) as (d & Hrun & Hd & _).
  exists d. split; [exact Hrun|].
  rewrite Hd, Hb. apply Q.min_compat; [|reflexivity].
  assert (Hus : datetime_sub (at_time (day + 1) 3 0 0 0) now = 11400000000).
  { unfold datetime_sub, seconds_of_day, now, at_time, US_PER_DAY,
      US_PER_SECOND; simpl. unfold timedelta. ring. }
  rewrite Hus. vm_compute. reflexivity.
Qed.

End Loop.

(** ** Where the claims as first stated fail, and runs of the theorems *)

(** C2, as first stated, fails: a caller that may not change the qdisc
    issues the apply command in each of two consecutive calls of
    [impair], and the removal command in each of two calls of [heal],
    while the kernel stays as it was. *)
Lemma impair_twice_retries :
  fst ((impair ;; impair) (initial unprivileged_clean)) = Returned tt /\
  world (snd ((impair ;; impair) (initial unprivileged_clean)))
    = unprivileged_clean /\
  ~ (count_spawn IMPAIR_CMD
       (trace (snd ((impair ;; impair) (initial unprivileged_clean))))
     <= 1)%nat /\
  ~ (count_spawn HEAL_CMD
       (trace (snd ((heal ;; heal) (initial unprivileged_netem))))
     <= 1)%nat.
Proof.
  split; [reflexivity|]. split; [reflexivity|].
  split; vm_compute; lia.
Qed.

Lemma tc_apply_seen :
  forall (w : Tc.kernel) out w',
    spawn IMPAIR_CMD w = (Exited 0 out, w') -> query_reports_netem w'.
Proof.
  intros [[|] [|]] out w' E; vm_compute in E; inversion E; subst.
  exists Tc.SHOW_NETEM, Tc.SHOW_NETEM. eexists.
  split; [reflexivity|]. split; reflexivity.
Qed.

Lemma tc_removal_seen :
  forall (w : Tc.kernel) out w',
    spawn HEAL_CMD w = (Exited 0 out, w') -> query_reports_clean w'.
Proof.
  intros [[|] [|]] out w' E; vm_compute in E; inversion E; subst.
  intros out' text w'' E' Hdec. vm_compute in E'. inversion E'; subst.
  vm_compute in Hdec. inversion Hdec. reflexivity.
Qed.

Lemma reconcile_minimal_commands_witness :
  (count_spawn IMPAIR_CMD
     (trace (snd ((impair ;; impair) (initial (Tc.mkkernel false true)))))
   <= 1)%nat /\
  (count_spawn HEAL_CMD
     (trace (snd ((heal ;; heal) (initial (Tc.mkkernel true true)))))
   <= 1)%nat.
Proof.
  destruct (@reconcile_minimal_commands Tc.kernel _ _)
    as (_ & _ & Hi & Hh).
  split.
  - apply (Hi tc_apply_seen (initial (Tc.mkkernel false true))).
    intros s1 E. vm_compute in E. inversion E. subst.
    eexists. eexists. reflexivity.
  - apply (Hh tc_removal_seen (initial (Tc.mkkernel true true))).
    intros s1 E. vm_compute in E. inversion E. subst.
    eexists. eexists. reflexivity.
Defined.

(** C3, as first stated, fails. At 05:00 on 9999-12-31 the window start
    of the day is past and tomorrow is not a date; the iteration raises
    [OverflowError] and does not sleep. And at 02:59:59.900000 the
    boundary is a tenth of a second away, which is no float: the
    iteration sleeps for the float next to it, 7205759403792794 / 2^56,
    not for the minimum of a tenth and the poll interval. *)
Lemma no_boundary_after_last_day :
  wf_datetime last_day_0500 /\
  in_healthy_window last_day_0500 = false /\
  next_start last_day_0500 = None /\
  fst (main_iteration last_day_0500 (initial (Tc.mkkernel true true)))
    = Raised OverflowError /\
  sleeps (trace (snd (main_iteration last_day_0500
                        (initial (Tc.mkkernel true true))))) = [] /\
  (time_until t_025959_9 (spec_next_boundary t_025959_9) == 1 # 10)%Q /\
  sleeps (trace (snd (main_iteration t_025959_9
                        (initial (Tc.mkkernel true true)))))
    = [7205759403792794 # 72057594037927936] /\
  ~ (7205759403792794 # 72057594037927936
     == Qmin (time_until t_025959_9 (spec_next_boundary t_025959_9))
             (inject_Z CHECK_INTERVAL))%Q.
Proof.
  split; [apply wf_datetimeb_correct; reflexivity|].
  split; [reflexivity|]. split; [reflexivity|]. split; [reflexivity|].
  split; [reflexivity|]. split; [reflexivity|].
  split; [vm_compute; reflexivity|].
  vm_compute. discriminate.
Qed.

Lemma impaired_sleep_exact_witness :
  main_iteration t_0210 (initial (Tc.mkkernel false true))
    = (Returned tt,
       record (Sleep (Qmin (float_time_until t_0210
                              (spec_next_boundary t_0210))
                           (inject_Z CHECK_INTERVAL)))
         (snd (impair (initial (Tc.mkkernel false true))))) /\
  (float_time_until t_0210 (spec_next_boundary t_0210)
   <= time_until t_0210 (spec_next_boundary t_0210) * (1 + Double.U))%Q.
Proof.
  destruct (impaired_sleep_exact t_0210 (initial (Tc.mkkernel false true))
              (snd (impair (initial (Tc.mkkernel false true)))))
    as (_ & Hrun & _ & Hhi).
  - apply wf_datetimeb_correct. reflexivity.
  - reflexivity.
  - unfold boundary_exists. vm_compute. discriminate.
  - reflexivity.
  - split; assumption.
Defined.

(** At 02:10 the sleep is at most 50 minutes and at most the poll
    interval. *)
Example sleep_0210 :
  sleeps (trace (snd (main_iteration t_0210
                        (initial (Tc.mkkernel false true))))) = [30%Q] /\
  (time_until t_0210 (spec_next_boundary t_0210) == 3000)%Q.
Proof. split; reflexivity. Qed.

Lemma healthy_sleep_target_witness :
  exists d,
    main_iteration t_0310 (initial (Tc.mkkernel true true))
      = (Returned tt,
         record (Sleep d)
           (record (Stdout MSG_HEALTHY)
              (snd (heal (initial (Tc.mkkernel true true)))))) /\
    (timestamp (next_transition t_0310) <= timestamp t_0310 + d)%Q /\
    (timestamp (next_transition t_0310) + 1 - NANOSECOND
     <= timestamp t_0310 + d)%Q /\
    (timestamp t_0310 + d
     <= timestamp (next_transition t_0310) + 1 + NANOSECOND)%Q.
Proof.
  destruct (healthy_sleep_target t_0310 (initial (Tc.mkkernel true true))
              (snd (heal (initial (Tc.mkkernel true true)))))
    as (Hin & _ & _).
  - apply wf_datetimeb_correct. reflexivity.
  - reflexivity.
  - apply Hin. reflexivity.
Defined.

(** At 03:59:59.999999 the end of the window is a microsecond away; the
    sleep is the float next to 1.000001 and the wake-up target is after
    the end of the window. *)
Example sleep_035959 :
  sleeps (trace (snd (main_iteration t_035959_999999
                        (initial (Tc.mkkernel false true)))))
    = [4503604130970123 # 4503599627370496] /\
  (timestamp (next_transition t_035959_999999)
   < timestamp t_035959_999999 + (4503604130970123 # 4503599627370496))%Q.
Proof. split; [vm_compute; reflexivity | vm_compute; reflexivity]. Qed.

(** The fallback of the healthy branch, run after the window has ended. *)
Example healthy_branch_fallback :
  sleeps (trace (snd (healthy_branch t_2350
                        (initial (Tc.mkkernel false true)))))
  = [inject_Z CHECK_INTERVAL].
Proof. reflexivity. Qed.

(** C5, as first stated, fails: when [tc] cannot be started the probe
    raises [OSError] instead of returning false, and so do [heal] and
    [impair], which issue no further command; and when the query fails
    with status 1 after printing what is no text, the probe raises
    [UnicodeDecodeError]. *)
Lemma probe_propagates_oserror :
  fst (has_netem (initial tc_missing)) = Raised OSError /\
  fst (has_netem (initial tc_missing)) <> Returned false /\
  fst (heal (initial tc_missing)) = Raised OSError /\
  fst (impair (initial tc_missing)) = Raised OSError /\
  count_spawn IMPAIR_CMD (trace (snd (impair (initial tc_missing)))) = 0%nat /\
  fst (has_netem (initial (query_garbled 1))) = Raised UnicodeDecodeError /\
  fst (impair (initial (query_garbled 1))) = Raised UnicodeDecodeError.
Proof.
  split; [reflexivity|]. split; [discriminate|].
  repeat split; reflexivity.
Qed.

Lemma probe_failure_fallback_witness :
  has_netem (initial query_fails)
    = (Returned false,
       spawned SHOW_CMD (Script.mkscript [Exited 0 EmptyString])
         (initial query_fails)) /\
  heal (initial query_fails)
    = (Returned tt,
       spawned SHOW_CMD (Script.mkscript [Exited 0 EmptyString])
         (initial query_fails)) /\
  count_spawn IMPAIR_CMD (trace (snd (impair (initial query_fails))))
    = 1%nat.
Proof.
  destruct (probe_failure_fallback (initial query_fails)) as (Hfail & _ & _).
  apply (Hfail 1 EmptyString EmptyString).
  - reflexivity.
  - reflexivity.
  - lia.
Defined.

Lemma heal_removal_failure_witness :
  (stderr_lines (trace (snd (heal (initial (removal_fails 2))))) = []) /\
  (stderr_lines (trace (snd (heal (initial (removal_fails 1)))))
   = [MSG_REMOVE_FAILED]) /\
  fst (heal (initial (removal_fails 2))) = Returned tt /\
  fst (heal (initial (removal_fails 1))) = Returned tt.
Proof.
  pose proof (heal_removal_failure (initial (removal_fails 2))
                (snd (has_netem (initial (removal_fails 2))))
                2 EmptyString (Script.mkscript [])
                eq_refl eq_refl ltac:(lia)) as (R2 & _ & S2 & _).
  pose proof (heal_removal_failure (initial (removal_fails 1))
                (snd (has_netem (initial (removal_fails 1))))
                1 EmptyString (Script.mkscript [])
                eq_refl eq_refl ltac:(lia)) as (R1 & _ & _ & S1).
  split; [exact (S2 eq_refl)|].
  split; [apply S1; lia|].
  split; assumption.
Defined.

(** C7, as first stated, fails: when [tc] cannot be started, the first
    iteration raises [OSError]; the loop does not go on to the second
    clock reading and never sleeps. The same happens, with
    [UnicodeDecodeError], when the query exits with status 0 after
    printing what is no text. *)
Lemma oserror_is_fatal :
  schedulable t_0210 /\ schedulable t_0310 /\
  fst (main_iteration t_0210 (initial tc_missing)) = Raised OSError /\
  fst (main_iteration t_0310 (initial tc_missing)) = Raised OSError /\
  fst (main [t_0210; t_0310] (initial tc_missing)) = Raised OSError /\
  sleeps (trace (snd (main [t_0210; t_0310] (initial tc_missing)))) = [] /\
  fst (main [t_0210; t_0310] (initial (query_garbled 0)))
    = Raised UnicodeDecodeError /\
  sleeps (trace (snd (main [t_0210; t_0310] (initial (query_garbled 0)))))
    = [].
Proof.
  split; [split; [apply wf_datetimeb_correct; reflexivity
                 | right; unfold boundary_exists; vm_compute; discriminate]|].
  split; [split; [apply wf_datetimeb_correct; reflexivity
                 | left; reflexivity]|].
  repeat split; reflexivity.
Qed.

Lemma tc_always_exits : always_exits Tc.kernel.
Proof.
  intros cmd k. unfold spawn, Shell_kernel, Tc.tc.
  destruct (cmd_eqb cmd SHOW_CMD); [eexists; eexists; eexists; reflexivity|].
  destruct (cmd_eqb cmd IMPAIR_CMD).
  { destruct (Tc.privileged k && negb (Tc.netem_installed k));
      eexists; eexists; eexists; reflexivity. }
  destruct (cmd_eqb cmd HEAL_CMD).
  { destruct (Tc.privileged k && Tc.netem_installed k);
      eexists; eexists; eexists; reflexivity. }
  eexists; eexists; eexists; reflexivity.
Qed.

Lemma tc_query_decodes : query_decodes Tc.kernel.
Proof.
  intros [[|] p] rc out w' E; vm_compute in E; inversion E; subst;
    eexists; vm_compute; reflexivity.
Qed.

Lemma exit_status_never_fatal_witness :
  exists s',
    main_loop [t_0210; t_0310; t_2350] (initial unprivileged_netem)
      = (Returned tt, s') /\
    List.length (sleeps (trace s')) = 3%nat.
Proof.
  apply (proj1 (@exit_status_never_fatal Tc.kernel _ _)
           tc_always_exits tc_query_decodes [t_0210; t_0310; t_2350]).
  apply Forall_cons.
  { split; [apply wf_datetimeb_correct; reflexivity|].
    right. unfold boundary_exists. vm_compute. discriminate. }
  apply Forall_cons.
  { split; [apply wf_datetimeb_correct; reflexivity|].
    left. reflexivity. }
  apply Forall_cons; [|apply Forall_nil].
  split; [apply wf_datetimeb_correct; reflexivity|].
  right. unfold boundary_exists. vm_compute. discriminate.
Defined.

(** C8, as first stated, fails: from 23:50 to 03:00 of the next day there
    are 11400 seconds, not 27300; and at 23:50 on 9999-12-31 there is no
    tomorrow. *)
Lemma scenario_2350_not_27300 :
  next_start t_2350 = Some (at_time 739418 3 0 0 0) /\
  (time_until t_2350 (at_time 739418 3 0 0 0) == 11400)%Q /\
  ~ (time_until t_2350 (at_time 739418 3 0 0 0) == 27300)%Q /\
  next_start (at_time MAXORDINAL 23 50 0 0) = None.
Proof.
  split; [reflexivity|]. split; [reflexivity|].
  split; [vm_compute; discriminate | reflexivity].
Qed.

Lemma scenario_2350_witness :
  next_start t_2350 = Some (at_time 739418 3 0 0 0) /\
  exists d,
    main_iteration t_2350 (initial (Tc.mkkernel false true))
      = (Returned tt,
         record (Sleep d)
           (snd (impair (initial (Tc.mkkernel false true))))) /\
    (d == Qmin 11400 (inject_Z CHECK_INTERVAL))%Q.
Proof.
  destruct (scenario_2350 739417 (initial (Tc.mkkernel false true))
              (snd (impair (initial (Tc.mkkernel false true)))))
    as (_ & Hn & _ & Hd);
    [unfold MAXORDINAL; lia | reflexivity |].
  split; [exact Hn | exact Hd].
Defined.

Lemma healthy_fallback_unreachable_witness :
  datetime_compare (next_transition t_0310) t_0310 = Gt /\
  datetime_le (next_transition t_0310) t_0310 = false.
Proof.
  destruct (@healthy_fallback_unreachable Tc.kernel _ _ t_0310 eq_refl)
    as (Hc & Hl & _).
  split; assumption.
Defined.



(** * Further properties of the script *)

(** ** The text test of the probe *)

Lemma prefix_occurs a b :
  String.prefix a b = true <-> exists after, b = (a ++ after)%string.
Proof.
  revert b. induction a as [|c a IH]; intros b.
  - split; [intros _; exists b; reflexivity | destruct b; reflexivity].
  - destruct b as [|c' b]; simpl.
    + split; [discriminate | intros [after E]; discriminate].
    + destruct (Ascii.ascii_dec c c') as [->|N].
      * rewrite IH. split; intros [after E]; exists after.
        -- rewrite E. reflexivity.
        -- inversion E. reflexivity.
      * split; [discriminate|].
        intros [after E]. inversion E as [[Ec Eb]].
        exfalso. exact (N (eq_sym Ec)).
Qed.

Lemma contains_unfold needle hay :
  contains needle hay =
  String.prefix needle hay ||
  match hay with
  | EmptyString => false
  | String _ rest => contains needle rest
  end.
Proof. destruct hay; reflexivity. Qed.

(** [contains] decides the occurrence of a text in a text. *)
Lemma contains_occurs needle hay :
  contains needle hay = true <-> occurs_in needle hay.
Proof.
  unfold occurs_in. split.
  - induction hay as [|c hay IH]; rewrite contains_unfold; intros E;
      apply orb_true_iff in E; destruct E as [E|E].
    + apply prefix_occurs in E. destruct E as [after E].
      exists EmptyString, after. exact E.
    + discriminate.
    + apply prefix_occurs in E. destruct E as [after E].
      exists EmptyString, after. exact E.
    + destruct (IH E) as (before & after & E').
      exists (String c before), after. simpl. rewrite E'. reflexivity.
  - intros (before & after & E). subst hay.
    induction before as [|c before IH]; rewrite contains_unfold.
    + simpl. apply orb_true_iff. left. apply prefix_occurs.
      exists after. reflexivity.
    + simpl. rewrite IH. apply orb_true_r.
Qed.

Section ProbeText.

Context {World : Type} `{Shell World} `{Locale}.

(** X1. The probe, in full: it starts the query and nothing else; when
    the output of the query is a text of the locale, it returns whether
    the query exited with status 0 and "netem" occurs in the text; when
    the output is no text it raises [UnicodeDecodeError], whatever the
    exit status; and when the query cannot be started it raises
    [OSError]. *)
Theorem has_netem_spec (s : state World) :
  match spawn SHOW_CMD (world s) with
  | (Exited rc out, w) =>
      match decode out with
      | Some text =>
          exists b,
            has_netem s = (Returned b, spawned SHOW_CMD w s) /\
            (b = true <-> rc = 0 /\ occurs_in NETEM text)
      | None =>
          has_netem s = (Raised UnicodeDecodeError, spawned SHOW_CMD w s)
      end
  | (NotStarted, w) => has_netem s = (Raised OSError, spawned SHOW_CMD w s)
  end.
Proof.
  rewrite has_netem_cases.
  destruct (spawn SHOW_CMD (world s)) as [[rc out|] w]; [|reflexivity].
  destruct (decode out) as [text|]; [|reflexivity].
  exists ((rc =? 0) && contains NETEM text). split; [reflexivity|].
  rewrite andb_true_iff, Z.eqb_eq, contains_occurs. reflexivity.
Qed.

End ProbeText.

(** ** The commands of the probe and of the two actions *)

Lemma spawns_app tr tr' : spawns (tr ++ tr') = spawns tr ++ spawns tr'.
Proof. unfold spawns. apply flat_map_app. Qed.

Lemma count_spawn_spawns cmd tr :
  count_spawn cmd tr
  = List.length (filter (fun c => cmd_eqb c cmd) (spawns tr)).
Proof.
  unfold count_spawn. induction tr as [|e tr IH]; [reflexivity|].
  destruct e as [c|l|l|q]; simpl; try exact IH.
  destruct (cmd_eqb c cmd); simpl; rewrite IH; reflexivity.
Qed.

Section Actions.

Context {World : Type} `{Shell World} `{Locale}.

Lemma spawns_record e (s : state World) :
  (forall c, e <> Spawn c) ->
  spawns (trace (record e s)) = spawns (trace s).
Proof.
  intros He. unfold record; simpl. rewrite spawns_app.
  destruct e as [c|l|l|q]; simpl; try apply app_nil_r.
  exfalso. apply (He c). reflexivity.
Qed.

Lemma spawns_spawned c w (s : state World) :
  spawns (trace (spawned c w s)) = spawns (trace s) ++ [c].
Proof. unfold spawned; simpl. rewrite spawns_app. reflexivity. Qed.

Lemma has_netem_spawns (s s1 : state World) r :
  has_netem s = (r, s1) -> spawns (trace s1) = spawns (trace s) ++ [SHOW_CMD].
Proof.
  intros E. rewrite (has_netem_trace _ _ _ E), spawns_app. reflexivity.
Qed.

(** The commands of [impair]: the query, then the apply command exactly
    when the probe returned false. *)
Lemma impair_spawns (s : state World) :
  spawns (trace (snd (impair s)))
  = spawns (trace s) ++
    SHOW_CMD :: match fst (has_netem s) with
                | Returned false => [IMPAIR_CMD]
                | _ => []
                end.
Proof.
  rewrite impair_cases.
  destruct (has_netem s) as [r s1] eqn:E.
  pose proof (has_netem_spawns _ _ _ E) as Hs.
  destruct r as [[|]|e]; simpl; try exact Hs.
  destruct (spawn IMPAIR_CMD (world s1)) as [[rc out|] w];
    [destruct (rc =? 0)|]; simpl;
    repeat (rewrite spawns_app; simpl); rewrite Hs, ?app_nil_r, <- app_assoc;
    reflexivity.
Qed.

(** The commands of [heal]: the query, then the removal command exactly
    when the probe returned true. *)
Lemma heal_spawns (s : state World) :
  spawns (trace (snd (heal s)))
  = spawns (trace s) ++
    SHOW_CMD :: match fst (has_netem s) with
                | Returned true => [HEAL_CMD]
                | _ => []
                end.
Proof.
  rewrite heal_cases.
  destruct (has_netem s) as [r s1] eqn:E.
  pose proof (has_netem_spawns _ _ _ E) as Hs.
  destruct r as [[|]|e]; simpl; try exact Hs.
  destruct (spawn HEAL_CMD (world s1)) as [[rc out|] w];
    [destruct ((rc =? 0) || (rc =? 2))|]; simpl;
    repeat (rewrite spawns_app; simpl); rewrite Hs, ?app_nil_r, <- app_assoc;
    reflexivity.
Qed.

(** The probe raises only what comes from the world. *)
Lemma has_netem_raises (s s1 : state World) e :
  has_netem s = (Raised e, s1) -> raised_by_world World e.
Proof.
  rewrite has_netem_cases.
  destruct (spawn SHOW_CMD (world s)) as [[rc out|] w] eqn:Ew.
  - destruct (decode out) as [text|] eqn:Hdec; intros E; inversion E; subst.
    right. split; [reflexivity|].
    exists (world s), rc, out, w. split; assumption.
  - intros E; inversion E; subst. left. split; [reflexivity|].
    exists SHOW_CMD, (world s), w. exact Ew.
Qed.

Lemma impair_raises (s s1 : state World) e :
  impair s = (Raised e, s1) -> raised_by_world World e.
Proof.
  rewrite impair_cases.
  destruct (has_netem s) as [r s0] eqn:E.
  destruct r as [[|]|e0].
  - discriminate.
  - destruct (spawn IMPAIR_CMD (world s0)) as [[rc out|] w] eqn:Ew;
      [destruct (rc =? 0); discriminate|].
    intros E'. inversion E'; subst. left. split; [reflexivity|].
    exists IMPAIR_CMD, (world s0), w. exact Ew.
  - intros E'. inversion E'; subst.
    exact (has_netem_raises _ _ _ E).
Qed.

Lemma heal_raises (s s1 : state World) e :
  heal s = (Raised e, s1) -> raised_by_world World e.
Proof.
  rewrite heal_cases.
  destruct (has_netem s) as [r s0] eqn:E.
  destruct r as [[|]|e0].
  - destruct (spawn HEAL_CMD (world s0)) as [[rc out|] w] eqn:Ew;
      [destruct ((rc =? 0) || (rc =? 2)); discriminate|].
    intros E'. inversion E'; subst. left. split; [reflexivity|].
    exists HEAL_CMD, (world s0), w. exact Ew.
  - discriminate.
  - intros E'. inversion E'; subst.
    exact (has_netem_raises _ _ _ E).
Qed.

(** X2. [heal] after the probe: when the probe reports no impairment,
    [heal] does nothing more; when it reports impairment, [heal] issues
    exactly one removal command and no apply command. *)
Theorem heal_minimal_commands :
  (forall s s1 : state World,
      has_netem s = (Returned false, s1) ->
      heal s = (Returned tt, s1) /\
      trace s1 = trace s ++ [Spawn SHOW_CMD]) /\
  (forall s s1 : state World,
      has_netem s = (Returned true, s1) ->
      count_spawn HEAL_CMD (trace (snd (heal s)))
        = S (count_spawn HEAL_CMD (trace s)) /\
      count_spawn IMPAIR_CMD (trace (snd (heal s)))
        = count_spawn IMPAIR_CMD (trace s)).
Proof.
  split.
  - intros s s1 E. split.
    + rewrite heal_cases, E. reflexivity.
    + exact (has_netem_trace _ _ _ E).
  - intros s s1 E.
    rewrite !count_spawn_spawns, heal_spawns, E. simpl.
    rewrite !filter_app, !length_app. simpl. lia.
Qed.

(** X3. The command sequences of the two actions, in every world and
    whatever the outcome: [impair] starts the query and then, exactly
    when the probe returned false, the apply command; [heal] starts the
    query and then, exactly when the probe returned true, the removal
    command. So [impair] never starts the removal command and [heal]
    never starts the apply command. *)
Theorem action_command_sequences (s : state World) :
  spawns (trace (snd (impair s)))
  = spawns (trace s) ++
    SHOW_CMD :: match fst (has_netem s) with
                | Returned false => [IMPAIR_CMD]
                | _ => []
                end /\
  spawns (trace (snd (heal s)))
  = spawns (trace s) ++
    SHOW_CMD :: match fst (has_netem s) with
                | Returned true => [HEAL_CMD]
                | _ => []
                end /\
  count_spawn HEAL_CMD (trace (snd (impair s)))
    = count_spawn HEAL_CMD (trace s) /\
  count_spawn IMPAIR_CMD (trace (snd (heal s)))
    = count_spawn IMPAIR_CMD (trace s).
Proof.
  split; [apply impair_spawns|]. split; [apply heal_spawns|].
  rewrite !count_spawn_spawns, impair_spawns, heal_spawns.
  rewrite !filter_app, !length_app.
  destruct (fst (has_netem s)) as [[|]|e]; simpl; lia.
Qed.

(** X4. [impair] after a probe that reports no impairment: when the apply
    command exits with status 0, [impair] returns and writes nothing to
    stderr; when it exits with any other status, 2 included, [impair]
    returns and writes exactly one failure line to stderr. *)
Theorem impair_apply_outcome (s s1 : state World) rc out w :
  has_netem s = (Returned false, s1) ->
  spawn IMPAIR_CMD (world s1) = (Exited rc out, w) ->
  fst (impair s) = Returned tt /\
  world (snd (impair s)) = w /\
  (rc = 0 ->
   stderr_lines (trace (snd (impair s))) = stderr_lines (trace s)) /\
  (rc <> 0 ->
   stderr_lines (trace (snd (impair s)))
     = stderr_lines (trace s) ++ [MSG_APPLY_FAILED]).
Proof.
  intros E Ew. rewrite impair_cases, E, Ew.
  pose proof (has_netem_trace _ _ _ E) as Ht.
  destruct (Z.eqb_spec rc 0) as [E0|N0]; simpl.
  - split; [reflexivity|]. split; [reflexivity|].
    rewrite !stderr_lines_app, Ht, stderr_lines_app. simpl.
    rewrite !app_nil_r.
    split; [reflexivity | intros N; contradiction].
  - split; [reflexivity|]. split; [reflexivity|].
    rewrite !stderr_lines_app, Ht, stderr_lines_app. simpl.
    rewrite !app_nil_r.
    split; [intros N; contradiction | reflexivity].
Qed.

(** X5. No [CalledProcessError] leaves the probe or the two actions:
    [has_netem], [impair] and [heal] raise only [OSError], when a command
    could not be started, or [UnicodeDecodeError], when the query printed
    what is no text of the locale. *)
Theorem actions_raise_only_oserror (s s1 : state World) e :
  has_netem s = (Raised e, s1) \/
  impair s = (Raised e, s1) \/
  heal s = (Raised e, s1) ->
  (e = OSError /\
   exists cmd w w', spawn cmd w = (NotStarted, w')) \/
  (e = UnicodeDecodeError /\
   exists w rc out w',
     spawn SHOW_CMD w = (Exited rc out, w') /\ decode out = None).
Proof.
  intros [E|[E|E]].
  - exact (has_netem_raises _ _ _ E).
  - exact (impair_raises _ _ _ E).
  - exact (heal_raises _ _ _ E).
Qed.

End Actions.

(** ** The window and the next start, as instants *)

(** X6. For a well-formed [now], the policy function answers Healthy
    exactly from 03:00:00 inclusive to 04:00:00 exclusive of the day of
    [now]. *)
Theorem healthy_window_instants now :
  wf_datetime now ->
  (in_healthy_window now = true <->
   timestamp_us (start_today now) <= timestamp_us now
     < timestamp_us (next_transition now)).
Proof.
  unfold wf_datetime. intros (Ho & Hh & Hm & Hs & Hu).
  rewrite in_healthy_window_bounds.
  unfold timestamp_us, start_today, next_transition, replace_time,
    seconds_of_day, HEALTHY_START_HOUR, HEALTHY_END_HOUR, US_PER_DAY,
    US_PER_SECOND; simpl.
  lia.
Qed.

(** X7. For a well-formed [now], the next start of the window, when it is
    computed, is a well-formed datetime at 03:00:00 sharp, inside the
    healthy window, strictly after [now] and at most one day after it. *)
Theorem next_start_within_a_day now b :
  wf_datetime now ->
  next_start now = Some b ->
  wf_datetime b /\
  hour b = HEALTHY_START_HOUR /\ minute b = 0 /\ second b = 0 /\
  microsecond b = 0 /\
  in_healthy_window b = true /\
  0 < datetime_sub b now <= US_PER_DAY.
Proof.
  intros Hwf E. rewrite (next_start_spec now Hwf) in E.
  destruct (Z.leb_spec (toordinal (spec_next_boundary now)) MAXORDINAL)
    as [L|L]; [|discriminate].
  inversion E; subst b. clear E.
  pose proof (spec_next_boundary_future now Hwf) as Hf.
  rewrite datetime_sub_timestamp in Hf.
  split; [|split; [|split; [|split; [|split; [|split]]]]]; try exact Hf;
    revert L; unfold spec_next_boundary;
    destruct (timestamp_us now <? timestamp_us (start_today now));
    try reflexivity;
    unfold wf_datetime in *; simpl; unfold HEALTHY_START_HOUR; lia.
Qed.

(** X8. For a well-formed [now], the next start of the window cannot be
    computed (adding the day overflows) exactly on 9999-12-31 from
    03:00:00 on. *)
Theorem next_start_overflow now :
  wf_datetime now ->
  (next_start now = None <->
   toordinal now = MAXORDINAL /\ HEALTHY_START_HOUR <= hour now).
Proof.
  intros Hwf. rewrite (next_start_spec now Hwf).
  destruct Hwf as (Ho & Hh & Hm & Hs & Hu).
  unfold spec_next_boundary.
  destruct (Z.ltb_spec (timestamp_us now) (timestamp_us (start_today now)))
    as [L|L];
    revert L;
    unfold timestamp_us, start_today, start_tomorrow, seconds_of_day,
      HEALTHY_START_HOUR, US_PER_DAY, US_PER_SECOND; simpl; intros L.
  - destruct (Z.leb_spec (toordinal now) MAXORDINAL); [|lia].
    split; [discriminate | lia].
  - destruct (Z.leb_spec (toordinal now + 1) MAXORDINAL).
    + split; [discriminate | lia].
    + split; [intros _; lia | reflexivity].
Qed.

Lemma next_start_within_a_day_witness :
  wf_datetime (at_time 739418 3 0 0 0) /\
  0 < datetime_sub (at_time 739418 3 0 0 0) t_2350 <= US_PER_DAY.
Proof.
  destruct (next_start_within_a_day t_2350 (at_time 739418 3 0 0 0))
    as (Hw & _ & _ & _ & _ & _ & Hd);
    [apply wf_datetimeb_correct; reflexivity | reflexivity |].
  split; assumption.
Defined.

Lemma healthy_window_instants_witness :
  timestamp_us (start_today t_0310) <= timestamp_us t_0310
    < timestamp_us (next_transition t_0310).
Proof.
  apply (healthy_window_instants t_0310).
  - apply wf_datetimeb_correct. reflexivity.
  - reflexivity.
Defined.

Lemma next_start_overflow_witness : next_start last_day_0500 = None.
Proof.
  apply (next_start_overflow last_day_0500).
  - apply wf_datetimeb_correct. reflexivity.
  - split; [reflexivity | unfold HEALTHY_START_HOUR; simpl; lia].
Defined.

(** Inside the window [now] lies between the start and the end of the
    window, the end being at most an hour away. *)
Lemma healthy_window_bounds_us now :
  wf_datetime now ->
  (in_healthy_window now = true <->
   timestamp_us (start_today now) <= timestamp_us now /\
   (timestamp_us now < timestamp_us (next_transition now) /\
    timestamp_us (next_transition now) - timestamp_us now <= 3600000000)).
Proof.
  unfold wf_datetime. intros (Ho & Hh & Hm & Hs & Hu).
  rewrite in_healthy_window_bounds.
  unfold timestamp_us, start_today, next_transition, replace_time,
    seconds_of_day, HEALTHY_START_HOUR, HEALTHY_END_HOUR, US_PER_DAY,
    US_PER_SECOND; simpl.
  lia.
Qed.

(** ** One iteration and the loop *)

Section Iteration.

Context {World : Type} `{Shell World} `{Locale}.

Lemma time_sleep_spawns q (s : state World) :
  spawns (trace (snd (time_sleep q s))) = spawns (trace s).
Proof.
  unfold time_sleep.
  destruct (Qcompare q 0); simpl; try reflexivity;
    rewrite spawns_app; apply app_nil_r.
Qed.

(** The commands of the healthy branch are those of [heal]. *)
Lemma healthy_branch_spawns now (s : state World) :
  spawns (trace (snd (healthy_branch now s)))
  = spawns (trace (snd (heal s))).
Proof.
  unfold healthy_branch, bind.
  destruct (heal s) as [[[]|e] s1]; [|reflexivity]. simpl.
  destruct (datetime_le (next_transition now) now).
  - apply time_sleep_spawns.
  - unfold emit. rewrite time_sleep_spawns.
    apply spawns_record. discriminate.
Qed.

(** The commands of the impaired branch are those of [impair]. *)
Lemma impaired_branch_spawns now (s : state World) :
  spawns (trace (snd (impaired_branch now s)))
  = spawns (trace (snd (impair s))).
Proof.
  unfold impaired_branch, bind.
  destruct (impair s) as [[[]|e] s1]; [|reflexivity]. simpl.
  destruct (next_start now) as [b|]; simpl; [|reflexivity].
  apply time_sleep_spawns.
Qed.

(** The commands of one iteration. *)
Lemma main_iteration_spawns now (s : state World) :
  spawns (trace (snd (main_iteration now s)))
  = spawns (trace s) ++
    SHOW_CMD ::
    match fst (has_netem s), in_healthy_window now with
    | Returned true, true => [HEAL_CMD]
    | Returned false, false => [IMPAIR_CMD]
    | _, _ => []
    end.
Proof.
  unfold main_iteration. destruct (in_healthy_window now).
  - rewrite healthy_branch_spawns, heal_spawns.
    destruct (fst (has_netem s)) as [[|]|e]; reflexivity.
  - rewrite impaired_branch_spawns, impair_spawns.
    destruct (fst (has_netem s)) as [[|]|e]; reflexivity.
Qed.

(** X9. In the Healthy state, for a well-formed [now] and once [heal] has
    returned, the iteration sleeps for more than one second and for at
    most an hour, a second and a nanosecond. *)
Theorem healthy_sleep_bounds now (s s1 : state World) :
  wf_datetime now ->
  in_healthy_window now = true ->
  heal s = (Returned tt, s1) ->
  exists d,
    main_iteration now s
      = (Returned tt, record (Sleep d) (record (Stdout MSG_HEALTHY) s1)) /\
    (1 < d)%Q /\ (d <= inject_Z HEALTHY_SLEEP_MAX + NANOSECOND)%Q.
Proof.
  intros Hwf Hin E.
  pose proof (proj1 (healthy_window_bounds_us now Hwf) Hin) as [Hlo Hhi].
  destruct (healthy_branch_sleep now s s1 Hwf (proj1 Hhi) E)
    as (d & Hrun & _ & Hd1 & _ & Hup).
  exists d. unfold main_iteration. rewrite Hin.
  split; [exact Hrun|]. split; [exact Hd1|].
  assert (Hmax : (time_until now (next_transition now) <= 3600)%Q).
  { rewrite <- (exact_seconds_sub (next_transition now) now).
    rewrite <- datetime_sub_timestamp.
    unfold Qle. simpl. lia. }
  unfold HEALTHY_SLEEP_MAX.
  change (inject_Z 3601) with 3601%Q. lra.
Qed.

(** X10. In the Impaired state, for a well-formed [now] whose next
    boundary exists and once [impair] has returned, the wake-up target
    of the iteration is after the next boundary by no more than the
    rounding of [total_seconds()], 30 * 2^-53 seconds; the sleep is the
    poll interval when the boundary is farther than that by a relative
    2^-53, and the float time until the boundary when it is nearer by a
    relative 2^-53. *)
Theorem impaired_sleep_no_overshoot now (s s1 : state World) :
  wf_datetime now ->
  in_healthy_window now = false ->
  boundary_exists now ->
  impair s = (Returned tt, s1) ->
  exists d,
    main_iteration now s = (Returned tt, record (Sleep d) s1) /\
    (timestamp now + d
     <= timestamp (spec_next_boundary now)
        + inject_Z CHECK_INTERVAL * Double.U)%Q /\
    ((inject_Z CHECK_INTERVAL
      <= time_until now (spec_next_boundary now) * (1 - Double.U))%Q ->
     (d == inject_Z CHECK_INTERVAL)%Q) /\
    ((time_until now (spec_next_boundary now) * (1 + Double.U)
      <= inject_Z CHECK_INTERVAL)%Q ->
     (d == float_time_until now (spec_next_boundary now))%Q).
Proof.
  intros Hwf Hout Hex E.
  destruct (impaired_branch_sleep now s s1 Hwf Hex E)
    as (d & Hrun & Hd & _ & Hd30).
  exists d. unfold main_iteration. rewrite Hout.
  split; [exact Hrun|].
  rewrite total_seconds_float in Hd.
  assert (Hlt : timestamp_us now < timestamp_us (spec_next_boundary now))
    by (pose proof (spec_next_boundary_future now Hwf); lia).
  destruct (float_time_until_bounds now (spec_next_boundary now) Hlt)
    as [Hlo Hhi].
  set (delta := float_time_until now (spec_next_boundary now)) in *.
  pose proof (Q.le_min_l delta (inject_Z CHECK_INTERVAL)) as Hl.
  rewrite <- Hd in Hl. unfold time_until in *.
  unfold CHECK_INTERVAL in *. change (inject_Z 30) with 30%Q in *.
  unfold Double.U in *.
  split; [lra|]. split.
  - intros Hfar. rewrite Hd. apply Q.min_r. lra.
  - intros Hnear. rewrite Hd. apply Q.min_l. lra.
Qed.

(** X11. For a well-formed [now], an iteration raises neither
    [CalledProcessError] nor the [ValueError] of a negative sleep: it
    raises what comes from the world ([OSError] when a command could not
    be started, [UnicodeDecodeError] when the query printed what is no
    text), or, out of the window and without a next boundary,
    [OverflowError]. *)
Theorem main_iteration_exceptions now (s s1 : state World) e :
  wf_datetime now ->
  main_iteration now s = (Raised e, s1) ->
  (e = OSError /\
   exists cmd w w', spawn cmd w = (NotStarted, w')) \/
  (e = UnicodeDecodeError /\
   exists w rc out w',
     spawn SHOW_CMD w = (Exited rc out, w') /\ decode out = None) \/
  (e = OverflowError /\ in_healthy_window now = false /\
   ~ boundary_exists now).
Proof.
  intros Hwf. unfold main_iteration.
  assert (Hworld : forall e', raised_by_world World e' ->
    (e' = OSError /\
     exists cmd w w', spawn cmd w = (NotStarted, w')) \/
    (e' = UnicodeDecodeError /\
     exists w rc out w',
       spawn SHOW_CMD w = (Exited rc out, w') /\ decode out = None) \/
    (e' = OverflowError /\ in_healthy_window now = false /\
     ~ boundary_exists now)).
  { intros e' [He|He]; [left | right; left]; exact He. }
  destruct (in_healthy_window now) eqn:Hin.
  - destruct (heal s) as [[[]|e0] s0] eqn:E.
    + pose proof (proj1 (healthy_window_bounds_us now Hwf) Hin) as [_ Hhi].
      destruct (healthy_branch_sleep now s s0 Hwf (proj1 Hhi) E)
        as (d & Hrun & _).
      rewrite Hrun. discriminate.
    + unfold healthy_branch, bind. rewrite E. intros E'.
      inversion E'; subst. apply Hworld.
      exact (heal_raises _ _ _ E).
  - destruct (impair s) as [[[]|e0] s0] eqn:E.
    + rewrite (impaired_branch_after_impair now s s0 E).
      rewrite (next_start_spec now Hwf).
      destruct (Z.leb_spec (toordinal (spec_next_boundary now)) MAXORDINAL)
        as [L|L].
      * destruct (impaired_branch_sleep now s s0 Hwf L E) as (d & Hrun & _).
        rewrite (impaired_branch_after_impair now s s0 E) in Hrun.
        rewrite (next_start_spec now Hwf) in Hrun.
        destruct (Z.leb_spec (toordinal (spec_next_boundary now)) MAXORDINAL);
          [|lia].
        rewrite Hrun. discriminate.
      * intros E'. inversion E'; subst. right. right.
        split; [reflexivity|]. split; [reflexivity|].
        unfold boundary_exists. lia.
    + unfold impaired_branch, bind. rewrite E. intros E'.
      inversion E'; subst. apply Hworld.
      exact (impair_raises _ _ _ E).
Qed.

(** X12. One iteration starts the query exactly once and first, whatever
    follows; inside the window it never starts the apply command, outside
    the window it never starts the removal command, and it starts at most
    one of the two. *)
Theorem main_iteration_commands now (s : state World) :
  count_spawn SHOW_CMD (trace (snd (main_iteration now s)))
    = S (count_spawn SHOW_CMD (trace s)) /\
  (in_healthy_window now = true ->
   count_spawn IMPAIR_CMD (trace (snd (main_iteration now s)))
     = count_spawn IMPAIR_CMD (trace s)) /\
  (in_healthy_window now = false ->
   count_spawn HEAL_CMD (trace (snd (main_iteration now s)))
     = count_spawn HEAL_CMD (trace s)) /\
  (count_spawn IMPAIR_CMD (trace (snd (main_iteration now s)))
   + count_spawn HEAL_CMD (trace (snd (main_iteration now s)))
   <= S (count_spawn IMPAIR_CMD (trace s)
         + count_spawn HEAL_CMD (trace s)))%nat.
Proof.
  rewrite !count_spawn_spawns, main_iteration_spawns.
  rewrite !filter_app, !length_app.
  destruct (fst (has_netem s)) as [[|]|e];
    destruct (in_healthy_window now); simpl;
    (split; [lia|]); (split; [intros; try discriminate; lia|]);
    (split; [intros; try discriminate; lia | lia]).
Qed.

(** The commands of the loop are commands of the script. *)
Lemma main_loop_spawns clock :
  forall s : state World,
    Forall (fun c => In c script_commands) (spawns (trace s)) ->
    Forall (fun c => In c script_commands)
           (spawns (trace (snd (main_loop clock s)))).
Proof.
  induction clock as [|now later IH]; intros s Hs; [exact Hs|].
  simpl. unfold bind.
  assert (Hit : Forall (fun c => In c script_commands)
                  (spawns (trace (snd (main_iteration now s))))).
  { rewrite main_iteration_spawns. apply Forall_app. split; [exact Hs|].
    unfold script_commands.
    destruct (fst (has_netem s)) as [[|]|e];
      destruct (in_healthy_window now);
      repeat (apply Forall_cons; [simpl; tauto|]); apply Forall_nil. }
  destruct (main_iteration now s) as [[[]|e] s1]; [|exact Hit].
  apply IH. exact Hit.
Qed.

(** X13. Whatever the clock readings and the world, every command that
    [main] starts is one of the three command lines of the script: the
    query, the apply command or the removal command. *)
Theorem main_commands clock (w : World) :
  Forall (fun c => In c script_commands)
         (spawns (trace (snd (main clock (initial w))))).
Proof.
  unfold main, bind, emit. simpl.
  apply main_loop_spawns. simpl. apply Forall_nil.
Qed.

(** X14. A loop that has completed its iterations has probed the
    interface once per clock reading: no iteration reuses an earlier
    reading of the interface. *)
Theorem main_loop_probes clock :
  forall s s' : state World,
    main_loop clock s = (Returned tt, s') ->
    count_spawn SHOW_CMD (trace s')
    = (count_spawn SHOW_CMD (trace s) + List.length clock)%nat.
Proof.
  induction clock as [|now later IH]; intros s s' E.
  - inversion E; subst. simpl. lia.
  - simpl in E. unfold bind in E.
    pose proof (main_iteration_spawns now s) as Hsp.
    destruct (main_iteration now s) as [[[]|e] s1] eqn:Eit;
      [|discriminate].
    rewrite (IH s1 s' E). simpl.
    rewrite (count_spawn_spawns SHOW_CMD (trace s1)).
    simpl in Hsp. rewrite Hsp.
    rewrite (count_spawn_spawns SHOW_CMD (trace s)).
    rewrite filter_app, length_app.
    destruct (fst (has_netem s)) as [[|]|e];
      destruct (in_healthy_window now); simpl; lia.
Qed.

End Iteration.

(** ** Runs of the further properties *)

Lemma heal_minimal_commands_witness :
  count_spawn HEAL_CMD (trace (snd (heal (initial (Tc.mkkernel true true)))))
    = 1%nat /\
  heal (initial unprivileged_clean)
    = (Returned tt, snd (has_netem (initial unprivileged_clean))).
Proof.
  destruct (@heal_minimal_commands Tc.kernel _ _) as [Hno Hyes].
  split.
  - apply (Hyes (initial (Tc.mkkernel true true))
             (snd (has_netem (initial (Tc.mkkernel true true))))).
    reflexivity.
  - apply (Hno (initial unprivileged_clean)
             (snd (has_netem (initial unprivileged_clean)))).
    reflexivity.
Defined.

Lemma impair_apply_outcome_witness :
  fst (impair (initial unprivileged_clean)) = Returned tt /\
  stderr_lines (trace (snd (impair (initial unprivileged_clean))))
    = [MSG_APPLY_FAILED].
Proof.
  destruct (impair_apply_outcome (initial unprivileged_clean)
              (snd (has_netem (initial unprivileged_clean)))
              2 EmptyString unprivileged_clean)
    as (Hr & _ & _ & Hs); [reflexivity | reflexivity |].
  split; [exact Hr | apply Hs; lia].
Defined.

Lemma actions_raise_only_oserror_witness :
  (OSError = OSError /\
   exists cmd (w w' : Script.script), spawn cmd w = (NotStarted, w')) \/
  (OSError = UnicodeDecodeError /\
   exists (w : Script.script) rc out w',
     spawn SHOW_CMD w = (Exited rc out, w') /\ decode out = None).
Proof.
  apply (actions_raise_only_oserror (initial tc_missing)
           (snd (impair (initial tc_missing))) OSError).
  right. left. reflexivity.
Defined.

Lemma healthy_sleep_bounds_witness :
  exists d,
    main_iteration t_0310 (initial (Tc.mkkernel true true))
      = (Returned tt,
         record (Sleep d)
           (record (Stdout MSG_HEALTHY)
              (snd (heal (initial (Tc.mkkernel true true)))))) /\
    (1 < d)%Q /\ (d <= inject_Z HEALTHY_SLEEP_MAX + NANOSECOND)%Q.
Proof.
  apply (healthy_sleep_bounds t_0310 (initial (Tc.mkkernel true true))).
  - apply wf_datetimeb_correct. reflexivity.
  - reflexivity.
  - reflexivity.
Defined.

Lemma impaired_sleep_no_overshoot_witness :
  exists d,
    main_iteration t_025959_9 (initial (Tc.mkkernel false true))
      = (Returned tt,
         record (Sleep d)
           (snd (impair (initial (Tc.mkkernel false true))))) /\
    (timestamp t_025959_9 + d
     <= timestamp (spec_next_boundary t_025959_9)
        + inject_Z CHECK_INTERVAL * Double.U)%Q.
Proof.
  destruct (impaired_sleep_no_overshoot t_025959_9
              (initial (Tc.mkkernel false true))
              (snd (impair (initial (Tc.mkkernel false true)))))
    as (d & Hrun & Hle & _).
  - apply wf_datetimeb_correct. reflexivity.
  - reflexivity.
  - unfold boundary_exists. vm_compute. discriminate.
  - reflexivity.
  - exists d. split; assumption.
Defined.

Lemma main_iteration_exceptions_witness :
  (UnicodeDecodeError = OSError /\
   exists cmd (w w' : Script.script), spawn cmd w = (NotStarted, w')) \/
  (UnicodeDecodeError = UnicodeDecodeError /\
   exists (w : Script.script) rc out w',
     spawn SHOW_CMD w = (Exited rc out, w') /\ decode out = None) \/
  (UnicodeDecodeError = OverflowError /\
   in_healthy_window t_0310 = false /\ ~ boundary_exists t_0310).
Proof.
  apply (main_iteration_exceptions t_0310
           (initial (query_garbled 0))
           (snd (main_iteration t_0310 (initial (query_garbled 0))))).
  - apply wf_datetimeb_correct. reflexivity.
  - reflexivity.
Defined.

Lemma main_iteration_commands_witness :
  count_spawn IMPAIR_CMD
    (trace (snd (main_iteration t_0310 (initial unprivileged_clean))))
  = 0%nat.
Proof.
  apply (proj1 (proj2 (main_iteration_commands t_0310
                         (initial unprivileged_clean)))).
  reflexivity.
Defined.

Lemma main_loop_probes_witness :
  count_spawn SHOW_CMD
    (trace (snd (main_loop [t_0210; t_0310; t_2350]
                   (initial unprivileged_netem))))
  = 3%nat.
Proof.
  apply (main_loop_probes [t_0210; t_0310; t_2350]
           (initial unprivileged_netem)).
  reflexivity.
Defined.
